(** * Active-section tracking of the documentation layout

    A shallow embedding of [src/components/layout.js] (the [Layout]
    component: [getPathIndex], the [state] initialiser, [componentDidMount],
    [componentWillUnmount], [onScroll]) and of
    [src/components/navigation.js] (the [Navigation] function component),
    with the properties of the scroll tracker and of the sidebar. *)

From Stdlib Require Import String Ascii List ZArith QArith Bool Lia.
Import ListNotations.

Local Open Scope string_scope.
Local Open Scope list_scope.

(** ** JavaScript values and arrays *)

(** The values the [activeAnchor] field takes: [null], [undefined] or a
    string. *)
Inductive jsval : Type :=
| JNull
| JUndefined
| JStr (s : string).

Definition jsval_eqb (v w : jsval) : bool :=
  match v, w with
  | JNull, JNull => true
  | JUndefined, JUndefined => true
  | JStr s, JStr t => String.eqb s t
  | _, _ => false
  end.

(** [activeAnchor === anchor], where [anchor] is an element of a string
    array. *)
Definition strict_eq_str (v : jsval) (anchor : string) : bool :=
  jsval_eqb v (JStr anchor).

(** [arr[i]] for an array and an integer index: [None] is [undefined]. *)
Definition array_get {A : Type} (arr : list A) (i : Z) : option A :=
  if (i <? 0)%Z then None else nth_error arr (Z.to_nat i).

(** [arr[0]] on an array of strings, as a JavaScript value. *)
Definition array_first (arr : list string) : jsval :=
  match array_get arr 0 with
  | Some s => JStr s
  | None => JUndefined
  end.

(** [Array.prototype.findIndex]: the index of the first element that
    satisfies [p], [-1] when there is none. *)
Fixpoint findIndex_from {A : Type} (p : A -> bool) (arr : list A) (i : Z) : Z :=
  match arr with
  | [] => (-1)%Z
  | x :: rest => if p x then i else findIndex_from p rest (i + 1)%Z
  end.

Definition findIndex {A : Type} (p : A -> bool) (arr : list A) : Z :=
  findIndex_from p arr 0%Z.

(** [s.replace(/\//g, "")]: every slash of [s] is removed. *)
Fixpoint replace_slashes (s : string) : string :=
  match s with
  | EmptyString => EmptyString
  | String c s' =>
      if Ascii.eqb c "/" then replace_slashes s'
      else String c (replace_slashes s')
  end.

(** ** The route table *)

(** An entry of [ROUTES].  [anchors] is [None] when the property is absent
    (so that [Array.isArray] answers [false]) and [Some arr] for an array. *)
Record route : Type := mkRoute {
  path : string;
  text : string;
  anchors : option (list string)
}.

(** [Array.isArray(r.anchors)] *)
Definition isArray_anchors (r : route) : bool :=
  match anchors r with
  | Some _ => true
  | None => false
  end.

(** ** The document *)

(** A rendered element: its [id] attribute and the [top] of its bounding
    client rectangle.  The offset is a finite number of pixels, possibly
    fractional, taken here as a rational: subtracting 26 from it and
    comparing the difference with 0 lose nothing. *)
Record element : Type := mkElement {
  id : string;
  top : Q
}.

(** The one function the component registers on the document. *)
Inductive listener : Type :=
| debouncedOnScroll.

Definition listener_eqb (l1 l2 : listener) : bool :=
  match l1, l2 with
  | debouncedOnScroll, debouncedOnScroll => true
  end.

(** What the component asks of the document's elements. *)
Inductive dom_op : Type :=
| GetElementById (i : string)
| GetBoundingClientRect (i : string).

(** ** The component instance and its surroundings *)

Record Props : Type := mkProps {
  props_path : string
}.

Record State : Type := mkState {
  sidebarVisible : bool;
  activeAnchor : jsval
}.

Record Layout : Type := mkLayout {
  props : Props;
  state : State
}.

(** The component together with the document it lives in: the elements in
    document order, the scroll listeners of [document], and the log of the
    element queries made so far. *)
Record world : Type := mkWorld {
  this : Layout;
  elements : list element;
  scrollListeners : list listener;
  queries : list dom_op
}.

(** ** A monad for methods: world-passing with exceptions

    A method either returns or throws; what it did to the world before
    throwing stays done. *)
Inductive completion (A : Type) : Type :=
| Return (a : A)
| Throw_TypeError.
Arguments Return {A} a.
Arguments Throw_TypeError {A}.

Definition M (A : Type) : Type := world -> completion A * world.

Definition ret {A : Type} (a : A) : M A := fun w => (Return a, w).

Definition bind {A B : Type} (m : M A) (k : A -> M B) : M B :=
  fun w =>
    match m w with
    | (Return a, w') => k a w'
    | (Throw_TypeError, w') => (Throw_TypeError, w')
    end.

Definition throw {A : Type} : M A := fun w => (Throw_TypeError, w).

Declare Scope method_scope.
Delimit Scope method_scope with method.
Notation "x <- m ;; k" := (bind m (fun x => k))
  (at level 61, m at next level, right associativity) : method_scope.
Notation "m ;; k" := (bind m (fun _ => k))
  (at level 61, right associativity) : method_scope.
Local Open Scope method_scope.

Definition get_this : M Layout := fun w => (Return (this w), w).

(** [this.setState({ activeAnchor })]: the other field is kept. *)
Definition setState_activeAnchor (v : jsval) : M unit :=
  fun w =>
    (Return tt,
     mkWorld
       (mkLayout (props (this w))
                 (mkState (sidebarVisible (state (this w))) v))
       (elements w) (scrollListeners w) (queries w)).

(** [document.addEventListener("scroll", l)]: a listener that is already
    registered is not registered twice. *)
Definition addEventListener (l : listener) : M unit :=
  fun w =>
    (Return tt,
     mkWorld (this w) (elements w)
       (if existsb (listener_eqb l) (scrollListeners w)
        then scrollListeners w
        else scrollListeners w ++ [l])
       (queries w)).

(** [document.removeEventListener("scroll", l)] *)
Definition removeEventListener (l : listener) : M unit :=
  fun w =>
    (Return tt,
     mkWorld (this w) (elements w)
       (filter (fun l' => negb (listener_eqb l l')) (scrollListeners w))
       (queries w)).

(** [document.getElementById(i)]: the first element in document order
    whose id is [i], [None] for [null]. *)
Definition getElementById (i : string) : M (option element) :=
  fun w =>
    (Return (find (fun el => String.eqb (id el) i) (elements w)),
     mkWorld (this w) (elements w) (scrollListeners w)
       (queries w ++ [GetElementById i])).

(** [el.getBoundingClientRect().top]: a [TypeError] when [el] is [null]. *)
Definition getBoundingClientRect_top (el : option element) : M Q :=
  match el with
  | None => throw
  | Some e =>
      fun w =>
        (Return (top e),
         mkWorld (this w) (elements w) (scrollListeners w)
           (queries w ++ [GetBoundingClientRect (id e)]))
  end.

(** [arr.forEach(callback)] where the callback assigns to a variable of
    the enclosing function: the variable is threaded through. *)
Fixpoint forEach {A V : Type} (arr : list A) (callback : V -> A -> M V)
    (v : V) : M V :=
  match arr with
  | [] => ret v
  | x :: rest => v' <- callback v x ;; forEach rest callback v'
  end.

(** [x - 26 < 0] on numbers *)
Definition past_threshold (x : Q) : bool :=
  match (x - 26 ?= 0)%Q with
  | Lt => true
  | _ => false
  end.

(** ** The [Layout] component *)

Section LayoutComponent.

(** [ROUTES] comes from [../const] and [cleanAnchor] from
    [./markdown-elements]; the component is modelled for any route table
    and any identifier transform. *)
Variable ROUTES : list route.
Variable cleanAnchor : string -> string.

(** The arrow function handed to [findIndex] in [getPathIndex]. *)
Definition getPathIndex_callback (self : Layout) (r : route) : bool :=
  String.eqb (replace_slashes (path r))
             (replace_slashes (props_path (props self))).

(** [getPathIndex()] *)
Definition getPathIndex (self : Layout) : Z :=
  findIndex (getPathIndex_callback self) ROUTES.

(** The initialiser of the [state] field, run by the constructor. *)
Definition initial_state (self_props : Props) : State :=
  let self := mkLayout self_props (mkState false JNull) in
  mkState false
    match array_get ROUTES (getPathIndex self) with
    | Some r =>
        if isArray_anchors r then
          match anchors r with
          | Some arr => array_first arr
          | None => JNull
          end
        else JNull
    | None => JNull
    end.

(** [new Layout(props)] *)
Definition new_Layout (self_props : Props) : Layout :=
  mkLayout self_props (initial_state self_props).

(** [ROUTES[pathIndex].anchors]: a [TypeError] when the route is
    [undefined]. *)
Definition ROUTES_anchors (pathIndex : Z) : M (option (list string)) :=
  match array_get ROUTES pathIndex with
  | Some r => ret (anchors r)
  | None => throw
  end.

(** The body of the callback handed to [forEach] in [onScroll]. *)
Definition onScroll_callback (activeAnchor : jsval) (anchor : string)
  : M jsval :=
  el <- getElementById (cleanAnchor anchor) ;;
  t <- getBoundingClientRect_top el ;;
  if past_threshold t then ret (JStr anchor) else ret activeAnchor.

(** [onScroll] *)
Definition onScroll : M unit :=
  self <- get_this ;;
  let pathIndex := getPathIndex self in
  anchors <- ROUTES_anchors pathIndex ;;
  match anchors with
  | None => throw
  | Some arr =>
      let activeAnchor := array_first arr in
      activeAnchor <- forEach arr onScroll_callback activeAnchor ;;
      setState_activeAnchor activeAnchor
  end.

(** [componentDidMount] *)
Definition componentDidMount : M unit :=
  self <- get_this ;;
  anchors <- ROUTES_anchors (getPathIndex self) ;;
  match anchors with
  | Some _ =>
      addEventListener debouncedOnScroll ;;
      onScroll
  | None => ret tt
  end.

(** [componentWillUnmount] *)
Definition componentWillUnmount : M unit :=
  removeEventListener debouncedOnScroll.

End LayoutComponent.

(** ** The lifetime of a page view *)

(** What happens to a mounted page.  The document's layout is part of
    the event: it is the one the handler finds when it runs.
    [ScrollFrame] is a scroll notification that the rate limiter lets
    through to the listeners: it is heard when the listener is registered
    as the frame runs.  [Unmount] is also what happens to the page after
    a [componentDidMount] that throws.  A frame that was scheduled before
    an unmount and runs after it is not among these events; what [onScroll]
    does then is stated on [onScroll] itself. *)
Inductive event : Type :=
| Mount (els : list element)
| ScrollFrame (els : list element)
| Unmount.

Definition set_elements (els : list element) : M unit :=
  fun w =>
    (Return tt, mkWorld (this w) els (scrollListeners w) (queries w)).

Definition has_listener (l : listener) : M bool :=
  fun w => (Return (existsb (listener_eqb l) (scrollListeners w)), w).

Section PageView.

Variable ROUTES : list route.
Variable cleanAnchor : string -> string.

Definition dispatch (e : event) : M unit :=
  match e with
  | Mount els =>
      set_elements els ;;
      componentDidMount ROUTES cleanAnchor
  | ScrollFrame els =>
      set_elements els ;;
      registered <- has_listener debouncedOnScroll ;;
      if registered then onScroll ROUTES cleanAnchor else ret tt
  | Unmount => componentWillUnmount
  end.

(** An exception of a handler is not caught by the component: the
    handler stops there and the world stays as the handler left it. *)
Definition step (w : world) (e : event) : world := snd (dispatch e w).

Definition run (w : world) (es : list event) : world :=
  fold_left step es w.

(** A page view starts with a fresh component in a document that has no
    scroll listener of this component and no element queried. *)
Definition page_view (p : Props) : world :=
  mkWorld (new_Layout ROUTES p) [] [] [].

End PageView.

(** ** The [Navigation] component *)

Record StyledLink : Type := mkStyledLink {
  href : option string;
  target : option string;
  link_active : bool;
  link_children : string
}.

(** A rendered [<SidebarItem>]: [$anchor], [$active] (absent counts as
    [false]), the [href] of the enclosing [<Link>] if there is one, and the
    [<StyledLink>] inside. *)
Record SidebarItem : Type := mkSidebarItem {
  item_anchor : bool;
  item_active : bool;
  Link_href : option string;
  item_link : StyledLink
}.

(** A rendered [<React.Fragment>] of one route: its key, the route's
    item, and what [pathIndex === index && ...] evaluates to, [None] for
    [false]. *)
Record Fragment : Type := mkFragment {
  key : string;
  route_item : SidebarItem;
  anchor_items : option (list SidebarItem)
}.

Record SidebarList : Type := mkSidebarList {
  list_isVisible : bool;
  list_children : list Fragment
}.

Definition getATarget (r : string) : option string :=
  if String.eqb r "https://github.com/styletron/styletron"
  then Some "_blank" else None.

(** [arr.map((x, index) => f(x, index))] for an [f] that may throw:
    [None] is the exception. *)
Fixpoint map_index_from {A B : Type} (f : A -> Z -> option B) (arr : list A)
    (i : Z) : option (list B) :=
  match arr with
  | [] => Some []
  | x :: rest =>
      match f x i with
      | None => None
      | Some y =>
          match map_index_from f rest (i + 1)%Z with
          | None => None
          | Some ys => Some (y :: ys)
          end
      end
  end.

Section NavigationComponent.

Variable ROUTES : list route.
Variable cleanAnchor : string -> string.

Definition Navigation_anchor (activeAnchor : jsval) (anchor : string)
  : SidebarItem :=
  mkSidebarItem true false None
    (mkStyledLink (Some (String.append "#" (cleanAnchor anchor))) None
       (strict_eq_str activeAnchor anchor) anchor).

Definition Navigation_route (pathIndex : Z) (activeAnchor : jsval)
    (r : route) (index : Z) : option Fragment :=
  let item :=
    mkSidebarItem false (pathIndex =? index)%Z (Some (path r))
      (mkStyledLink None (getATarget (path r)) (pathIndex =? index)%Z
         (text r)) in
  if (pathIndex =? index)%Z then
    match array_get ROUTES pathIndex with
    | None => None
    | Some active_route =>
        match anchors active_route with
        | None => None
        | Some arr =>
            Some (mkFragment (path r) item
                    (Some (map (Navigation_anchor activeAnchor) arr)))
        end
    end
  else Some (mkFragment (path r) item None).

(** [Navigation({ isVisible, pathIndex, activeAnchor })]; [None] when
    rendering throws a [TypeError]. *)
Definition Navigation (isVisible : bool) (pathIndex : Z)
    (activeAnchor : jsval) : option SidebarList :=
  match map_index_from (Navigation_route pathIndex activeAnchor) ROUTES 0
  with
  | None => None
  | Some frags => Some (mkSidebarList isVisible frags)
  end.

(** The sidebar as [Layout.render] builds it. *)
Definition render_Navigation (self : Layout) : option SidebarList :=
  Navigation (sidebarVisible (state self)) (getPathIndex ROUTES self)
    (activeAnchor (state self)).

End NavigationComponent.

(** ** The anchor identifier transform *)

Definition is_upper (c : ascii) : bool :=
  (65 <=? nat_of_ascii c)%nat && (nat_of_ascii c <=? 90)%nat.

Definition is_lower_alnum (c : ascii) : bool :=
  ((97 <=? nat_of_ascii c)%nat && (nat_of_ascii c <=? 122)%nat)
  || ((48 <=? nat_of_ascii c)%nat && (nat_of_ascii c <=? 57)%nat).

Definition to_lower (c : ascii) : ascii :=
  if is_upper c then ascii_of_nat (nat_of_ascii c + 32) else c.

(** The scan behind [cleanAnchor].  [started]: a letter or digit has been
    written; [pending]: separators were met since the last one written. *)
Fixpoint clean_from (s : string) (started pending : bool) : string :=
  match s with
  | EmptyString => EmptyString
  | String c s' =>
      let c' := to_lower c in
      if is_lower_alnum c' then
        if started && pending
        then String "-" (String c' (clean_from s' true false))
        else String c' (clean_from s' true false)
      else clean_from s' started started
  end.

(** Modelled from the spec: [cleanAnchor] of [./markdown-elements], which
    is imported by both components and is not among the sources.  The
    spec describes it as "lowercase, whitespace/punctuation collapsed to
    hyphens", "symbol characters stripped/normalized, case-folded", the
    empty string for the empty input, and gives
    [transform("$as prop") == "as-prop"]: letters are lowered, every run of
    characters other than letters and digits becomes one hyphen, and a run
    at either end is dropped.  Strings are taken over ASCII. *)
Definition cleanAnchor (s : string) : string := clean_from s false false.

(** A lowercase hyphenated string: lowercase letters and digits, in words
    separated by single hyphens, with no hyphen at either end. *)
Definition starts_alnum (s : string) : bool :=
  match s with
  | EmptyString => false
  | String c _ => is_lower_alnum c
  end.

Fixpoint hyphen_tail (s : string) : bool :=
  match s with
  | EmptyString => true
  | String c s' =>
      if Ascii.eqb c "-" then starts_alnum s' && hyphen_tail s'
      else is_lower_alnum c && hyphen_tail s'
  end.

Definition hyphenated (s : string) : bool :=
  match s with
  | EmptyString => true
  | String _ _ => starts_alnum s && hyphen_tail s
  end.

(** ** Notions used to state the properties *)

(** The element that [onScroll] measures for an anchor. *)
Definition element_of (cleanAnchor : string -> string) (els : list element)
    (anchor : string) : option element :=
  find (fun el => String.eqb (id el) (cleanAnchor anchor)) els.

(** The anchor's element exists and its top offset minus 26 is negative. *)
Definition scrolled_past (cleanAnchor : string -> string)
    (els : list element) (anchor : string) : Prop :=
  exists el,
    element_of cleanAnchor els anchor = Some el /\ (top el - 26 < 0)%Q.

(** What the loop of [onScroll] computes, without the world: [None] when
    an element is missing. *)
Fixpoint scan (cleanAnchor : string -> string) (els : list element)
    (arr : list string) (v : jsval) : option jsval :=
  match arr with
  | [] => Some v
  | a :: rest =>
      match element_of cleanAnchor els a with
      | None => None
      | Some el =>
          scan cleanAnchor els rest
            (if past_threshold (top el) then JStr a else v)
      end
  end.

(** The element queries the loop of [onScroll] makes. *)
Fixpoint scan_queries (cleanAnchor : string -> string) (els : list element)
    (arr : list string) : list dom_op :=
  match arr with
  | [] => []
  | a :: rest =>
      GetElementById (cleanAnchor a) ::
      match element_of cleanAnchor els a with
      | None => []
      | Some el =>
          GetBoundingClientRect (id el) :: scan_queries cleanAnchor els rest
      end
  end.

(** The world after the loop of [onScroll]: only the log of queries has
    grown. *)
Definition logged (cleanAnchor : string -> string) (w : world)
    (arr : list string) : world :=
  mkWorld (this w) (elements w) (scrollListeners w)
    (queries w ++ scan_queries cleanAnchor (elements w) arr).

(** The world laid out as [els], and the world with the scroll listener
    of the component registered. *)
Definition with_elements (w : world) (els : list element) : world :=
  snd (set_elements els w).

Definition registered (w : world) : world :=
  snd (addEventListener debouncedOnScroll w).

(** The anchor list of the route the component is on, empty when there is
    no such route or it has no list. *)
Definition current_anchors (ROUTES : list route) (self : Layout)
  : list string :=
  match array_get ROUTES (getPathIndex ROUTES self) with
  | Some r =>
      match anchors r with
      | Some arr => arr
      | None => []
      end
  | None => []
  end.

(** [null] and [undefined] both stand for "no anchor": neither is equal
    to a string. *)
Definition no_anchor (v : jsval) : Prop := v = JNull \/ v = JUndefined.

(** The stored active anchor is "no anchor" or one of the anchors of the
    route the component is on. *)
Definition anchor_of_current_route (ROUTES : list route) (w : world) : Prop :=
  no_anchor (activeAnchor (state (this w)))
  \/ exists a,
       activeAnchor (state (this w)) = JStr a /\
       In a (current_anchors ROUTES (this w)).

(** A string without its slashes, as the list of its other characters. *)
Definition without_slashes (s : string) : list ascii :=
  filter (fun c => negb (Ascii.eqb c "/")) (list_ascii_of_string s).

(** What an anchor sub-item of the sidebar is for the anchor [a] when
    [v] is the tracked active anchor: it shows [a], links to its fragment
    and is marked active exactly when [v] is [a]. *)
Definition anchor_item_of (cleanAnchor : string -> string) (v : jsval)
    (a : string) (it : SidebarItem) : Prop :=
  item_anchor it = true /\
  link_children (item_link it) = a /\
  href (item_link it) = Some (String.append "#" (cleanAnchor a)) /\
  (link_active (item_link it) = true <-> v = JStr a).

Definition active_anchor_items (items : list SidebarItem) : list SidebarItem :=
  filter (fun it => link_active (item_link it)) items.

Definition active_routes (tree : SidebarList) : list Fragment :=
  filter (fun f => item_active (route_item f)) (list_children tree).

(** Following the spec's words for the sidebar: rendering marks exactly
    one route as active, the one whose path equals the current path once
    separators are stripped, puts anchor sub-items under that route only,
    and marks exactly one of them as active, the one equal to the tracked
    active anchor. *)
Definition Navigation_marks_exactly_one (ROUTES : list route)
    (cleanAnchor : string -> string) (self : Layout) : Prop :=
  exists tree i r f,
    render_Navigation ROUTES cleanAnchor self = Some tree /\
    nth_error ROUTES i = Some r /\
    nth_error (list_children tree) i = Some f /\
    without_slashes (path r) = without_slashes (props_path (props self)) /\
    (forall j g, nth_error (list_children tree) j = Some g ->
       (item_active (route_item g) = true <-> j = i) /\
       (j <> i -> anchor_items g = None)) /\
    exists items k it,
      anchor_items f = Some items /\
      nth_error items k = Some it /\
      JStr (link_children (item_link it)) = activeAnchor (state self) /\
      forall k' it', nth_error items k' = Some it' ->
        (link_active (item_link it') = true <-> k' = k).


(** Following the spec's words for a missing element ("skip the missing
    anchor in the scan (treat as not yet passed)"): the loop that the spec
    recommends, to compare [onScroll] with. *)
Fixpoint scan_skipping (cleanAnchor : string -> string) (els : list element)
    (arr : list string) (v : jsval) : jsval :=
  match arr with
  | [] => v
  | a :: rest =>
      scan_skipping cleanAnchor els rest
        match element_of cleanAnchor els a with
        | Some el => if past_threshold (top el) then JStr a else v
        | None => v
        end
  end.

(** ** A small site to run the components on *)

Definition example_ROUTES : list route :=
  [ mkRoute "/" "Introduction" (Some []);
    mkRoute "/getting-started" "Getting Started" None;
    mkRoute "/react" "Use with React" (Some ["A"; "B"; "C"]) ].

(** The page [/react/], its component just constructed, laid out as
    [els]. *)
Definition example_page (els : list element) : world :=
  mkWorld (new_Layout example_ROUTES (mkProps "/react/")) els [] [].

(** [A] and [B] are above the threshold line, [C] is below it. *)
Definition A_B_passed : list element :=
  [ mkElement "a" (-300); mkElement "b" (51 # 2); mkElement "c" 26 ].

(** No heading has reached the threshold line. *)
Definition none_passed : list element :=
  [ mkElement "a" 40; mkElement "b" 400; mkElement "c" 900 ].

(** The heading of [B] is not in the document. *)
Definition B_missing : list element :=
  [ mkElement "a" (-300); mkElement "c" (-10) ].

(** ** [Layout.render] and the burger *)

(** Where the arrow of a previous/next link stands: before the route's
    text for the previous route, after it for the next one. *)
Inductive arrow : Type :=
| ArrowBefore
| ArrowAfter.

(** A rendered [<Link href prefetch><a target>...</a></Link>] of
    [<PrevNextLinks>]. *)
Record PageLink : Type := mkPageLink {
  page_href : string;
  page_target : option string;
  page_arrow : arrow;
  page_text : string
}.

(** What [Layout.render] builds, without the page content: the two slots
    of [<PrevNextLinks>] ([None] for [<div />]), the [isOpen] of the burger
    and the sidebar. *)
Record LayoutTree : Type := mkLayoutTree {
  prev_slot : option PageLink;
  next_slot : option PageLink;
  Burger_isOpen : bool;
  sidebar : SidebarList
}.

Section LayoutRender.

Variable ROUTES : list route.
Variable cleanAnchor : string -> string.

(** [pathIndex > 0 ? pathIndex - 1 : -1] *)
Definition prevRoute (pathIndex : Z) : Z :=
  if (pathIndex >? 0)%Z then (pathIndex - 1)%Z else (-1)%Z.

(** [pathIndex > -1 && pathIndex < ROUTES.length - 1 ? pathIndex + 1 : -1] *)
Definition nextRoute (pathIndex : Z) : Z :=
  if (pathIndex >? -1)%Z && (pathIndex <? Z.of_nat (length ROUTES) - 1)%Z
  then (pathIndex + 1)%Z else (-1)%Z.

(** [i > -1 ? <Link href={ROUTES[i].path} ...> : <div />]; the outer
    [None] is the [TypeError] of reading [path] of [undefined]. *)
Definition render_PageLink (a : arrow) (i : Z) : option (option PageLink) :=
  if (i >? -1)%Z then
    match array_get ROUTES i with
    | Some r =>
        Some (Some (mkPageLink (path r) (getATarget (path r)) a (text r)))
    | None => None
    end
  else Some None.

(** The [<PrevNextLinks>] of [render]. *)
Definition render_PrevNextLinks (self : Layout)
  : option (option PageLink * option PageLink) :=
  let pathIndex := getPathIndex ROUTES self in
  match render_PageLink ArrowBefore (prevRoute pathIndex) with
  | None => None
  | Some prev =>
      match render_PageLink ArrowAfter (nextRoute pathIndex) with
      | None => None
      | Some next => Some (prev, next)
      end
  end.

(** [render()], down to the sidebar: [None] when a [TypeError] is thrown
    on the way. *)
Definition render (self : Layout) : option LayoutTree :=
  match render_PrevNextLinks self with
  | None => None
  | Some (prev, next) =>
      match render_Navigation ROUTES cleanAnchor self with
      | None => None
      | Some nav =>
          Some (mkLayoutTree prev next (sidebarVisible (state self)) nav)
      end
  end.

End LayoutRender.

(** The [onClick] of the burger:
    [this.setState(prevState => ({ sidebarVisible: !prevState.sidebarVisible }))] *)
Definition Burger_onClick : M unit :=
  fun w =>
    (Return tt,
     mkWorld
       (mkLayout (props (this w))
          (mkState (negb (sidebarVisible (state (this w))))
             (activeAnchor (state (this w)))))
       (elements w) (scrollListeners w) (queries w)).

(** A page view with its burger: the events of the component's life and
    the clicks on the burger. *)
Inductive ui_event : Type :=
| Lifecycle (e : event)
| BurgerClick.

Definition is_BurgerClick (e : ui_event) : bool :=
  match e with
  | BurgerClick => true
  | Lifecycle _ => false
  end.

Definition is_ScrollFrame (e : event) : bool :=
  match e with
  | ScrollFrame _ => true
  | _ => false
  end.

Section PageViewUI.

Variable ROUTES : list route.
Variable cleanAnchor : string -> string.

Definition ui_step (w : world) (e : ui_event) : world :=
  match e with
  | Lifecycle e' => step ROUTES cleanAnchor w e'
  | BurgerClick => snd (Burger_onClick w)
  end.

Definition ui_run (w : world) (es : list ui_event) : world :=
  fold_left ui_step es w.

End PageViewUI.

(** ** More notions for the properties *)

(** The two queries [onScroll] makes for an anchor whose element
    exists. *)
Definition anchor_queries (cleanAnchor : string -> string) (a : string)
  : list dom_op :=
  [GetElementById (cleanAnchor a); GetBoundingClientRect (cleanAnchor a)].

(** The ids asked of [getElementById] in a log of queries. *)
Definition looked_up (qs : list dom_op) : list string :=
  flat_map (fun q => match q with
                     | GetElementById i => [i]
                     | GetBoundingClientRect _ => []
                     end) qs.

(** The world with the sidebar flag set to [b] and nothing else
    changed. *)
Definition set_sidebar (b : bool) (w : world) : world :=
  mkWorld
    (mkLayout (props (this w)) (mkState b (activeAnchor (state (this w)))))
    (elements w) (scrollListeners w) (queries w).

(** The events of the component's life among the events of a page view
    with its burger. *)
Definition lifecycle_of (es : list ui_event) : list event :=
  flat_map (fun e => match e with
                     | Lifecycle e' => [e']
                     | BurgerClick => []
                     end) es.

(** The path of a route without its slashes. *)
Definition stripped_path (r : route) : list ascii := without_slashes (path r).

(** The previous/next link to a route. *)
Definition PageLink_to (a : arrow) (r : route) : PageLink :=
  mkPageLink (path r) (getATarget (path r)) a (text r).

(** A world on another page of the same site, as the props say. *)
Definition on_path (p : string) (self : Layout) : Prop :=
  without_slashes (props_path (props self)) = without_slashes p.

(** * Properties *)

(** ** Arrays and strings *)

Lemma past_threshold_lt (x : Q) :
  past_threshold x = true <-> (x - 26 < 0)%Q.
Proof.
  unfold past_threshold. rewrite Qlt_alt.
  destruct (x - 26 ?= 0)%Q; split; intros H; congruence.
Qed.

Lemma array_get_In {A : Type} (arr : list A) (i : Z) (x : A) :
  array_get arr i = Some x -> In x arr.
Proof.
  unfold array_get. destruct (i <? 0)%Z; [discriminate|].
  apply nth_error_In.
Qed.

Lemma array_first_cons (a : string) (rest : list string) :
  array_first (a :: rest) = JStr a.
Proof. reflexivity. Qed.

Lemma findIndex_from_range {A : Type} (p : A -> bool) (arr : list A) (i : Z) :
  findIndex_from p arr i = (-1)%Z
  \/ (i <= findIndex_from p arr i < i + Z.of_nat (length arr))%Z.
Proof.
  revert i. induction arr as [|x rest IH]; intros i; simpl.
  - now left.
  - destruct (p x).
    + right. lia.
    + destruct (IH (i + 1)%Z) as [H|H]; [now left | right; lia].
Qed.

(** [findIndex] answers [-1] exactly when no element satisfies [p]. *)
Lemma findIndex_from_none {A : Type} (p : A -> bool) (arr : list A) (i : Z) :
  (0 <= i)%Z ->
  (findIndex_from p arr i = (-1)%Z <-> forall x, In x arr -> p x = false).
Proof.
  revert i. induction arr as [|x rest IH]; intros i Hi; simpl.
  - split; [intros _ y [] | reflexivity].
  - destruct (p x) eqn:Hp.
    + split; [lia | intros H; specialize (H x (or_introl eq_refl)); congruence].
    + rewrite IH by lia. split.
      * intros H y [<-|Hy]; auto.
      * intros H y Hy. apply H. now right.
Qed.

(** A non-negative answer of [findIndex] is the first position whose
    element satisfies [p]. *)
Lemma findIndex_from_some {A : Type} (p : A -> bool) (arr : list A) (i k : Z) :
  (0 <= i)%Z -> (0 <= k)%Z ->
  (findIndex_from p arr i = (i + k)%Z <->
   exists x, nth_error arr (Z.to_nat k) = Some x /\ p x = true /\
     forall j y, (j < Z.to_nat k)%nat -> nth_error arr j = Some y ->
                 p y = false).
Proof.
  revert i k. induction arr as [|x rest IH]; intros i k Hi Hk; simpl.
  - split.
    + intros H. lia.
    + intros [y [H _]]. destruct (Z.to_nat k); discriminate.
  - destruct (p x) eqn:Hp.
    + split.
      * intros H. assert (k = 0%Z) by lia. subst k. simpl.
        exists x. repeat split; auto. intros j y Hj. lia.
      * intros [y [Hy [Hpy Hfirst]]].
        destruct (Z.to_nat k) as [|n] eqn:Hn; [lia|].
        specialize (Hfirst 0%nat x (Nat.lt_0_succ n) eq_refl). congruence.
    + destruct (Z.eq_dec k 0) as [->|Hk0].
      * split.
        -- intros H.
           destruct (findIndex_from_range p rest (i + 1)) as [R|R]; lia.
        -- intros [y [Hy [Hpy _]]]. simpl in Hy. congruence.
      * replace (i + k)%Z with ((i + 1) + (k - 1))%Z by lia.
        rewrite IH by lia.
        replace (Z.to_nat k) with (S (Z.to_nat (k - 1))) by lia.
        split; intros [y [Hy [Hpy Hfirst]]]; exists y; simpl in *;
          repeat split; auto.
        -- intros [|j] z Hj Hz; simpl in Hz.
           ++ congruence.
           ++ apply (Hfirst j z); [lia | exact Hz].
        -- intros j z Hj Hz. apply (Hfirst (S j) z); [lia | exact Hz].
Qed.

Lemma replace_slashes_without (s : string) :
  list_ascii_of_string (replace_slashes s) = without_slashes s.
Proof.
  unfold without_slashes.
  induction s as [|c s IH]; simpl; [reflexivity|].
  destruct (Ascii.eqb c "/"); simpl; now rewrite IH.
Qed.

Lemma replace_slashes_eq_iff (s t : string) :
  replace_slashes s = replace_slashes t <->
  without_slashes s = without_slashes t.
Proof.
  rewrite <- !replace_slashes_without. split; intros H.
  - now rewrite H.
  - rewrite <- (string_of_list_ascii_of_string (replace_slashes s)),
      <- (string_of_list_ascii_of_string (replace_slashes t)).
    now rewrite H.
Qed.

Lemma getPathIndex_callback_iff (self : Layout) (r : route) :
  getPathIndex_callback self r = true <->
  without_slashes (path r) = without_slashes (props_path (props self)).
Proof.
  unfold getPathIndex_callback.
  rewrite String.eqb_eq. apply replace_slashes_eq_iff.
Qed.

(** The route at the position [getPathIndex] answers is selected by its
    callback. *)
Lemma getPathIndex_route (ROUTES : list route) (self : Layout) (r : route) :
  array_get ROUTES (getPathIndex ROUTES self) = Some r ->
  (0 <= getPathIndex ROUTES self)%Z /\
  nth_error ROUTES (Z.to_nat (getPathIndex ROUTES self)) = Some r /\
  getPathIndex_callback self r = true.
Proof.
  unfold array_get.
  destruct (Z.ltb_spec (getPathIndex ROUTES self) 0) as [|Hpos];
    [discriminate|].
  intros Hr. split; [exact Hpos|]. split; [exact Hr|].
  destruct (proj1 (findIndex_from_some (getPathIndex_callback self) ROUTES 0
                     (getPathIndex ROUTES self) (Z.le_refl 0) Hpos))
    as [x [Hx [Hpx _]]]; [reflexivity|].
  rewrite Hr in Hx. injection Hx as <-. exact Hpx.
Qed.

(** ** The scroll recomputation, step by step *)

Section OnScroll.

Variable ROUTES : list route.
Variable cleanAnchor : string -> string.

Lemma forEach_onScroll_callback (arr : list string) :
  forall (v : jsval) (w : world),
    forEach arr (onScroll_callback cleanAnchor) v w =
    (match scan cleanAnchor (elements w) arr v with
     | Some v' => Return v'
     | None => Throw_TypeError
     end,
     logged cleanAnchor w arr).
Proof.
  unfold logged.
  induction arr as [|a rest IH]; intros v w; simpl.
  - unfold ret. rewrite app_nil_r. now destruct w.
  - unfold bind at 1. unfold onScroll_callback, bind, getElementById.
    unfold element_of. simpl.
    destruct (find _ (elements w)) as [el|] eqn:Hfind; simpl.
    + destruct (past_threshold (top el)); unfold ret; rewrite IH; simpl;
        rewrite <- !app_assoc; reflexivity.
    + unfold throw. reflexivity.
Qed.

(** [onScroll] as a function of the world it is run in. *)
Lemma onScroll_unfold (w : world) :
  onScroll ROUTES cleanAnchor w =
  match array_get ROUTES (getPathIndex ROUTES (this w)) with
  | None => (Throw_TypeError, w)
  | Some r =>
      match anchors r with
      | None => (Throw_TypeError, w)
      | Some arr =>
          match scan cleanAnchor (elements w) arr (array_first arr) with
          | Some v =>
              (Return tt,
               mkWorld
                 (mkLayout (props (this w))
                    (mkState (sidebarVisible (state (this w))) v))
                 (elements w) (scrollListeners w)
                 (queries w ++ scan_queries cleanAnchor (elements w) arr))
          | None => (Throw_TypeError, logged cleanAnchor w arr)
          end
      end
  end.
Proof.
  unfold onScroll, bind at 1, get_this, bind at 1, ROUTES_anchors.
  destruct (array_get ROUTES (getPathIndex ROUTES (this w))) as [r|];
    [|reflexivity].
  unfold ret. destruct (anchors r) as [arr|]; [|reflexivity].
  unfold bind. rewrite forEach_onScroll_callback.
  destruct (scan cleanAnchor (elements w) arr (array_first arr));
    reflexivity.
Qed.

(** The loop with every element present: the last anchor past the
    threshold, or the starting value. *)
Lemma scan_all_present (els : list element) (arr : list string) :
  forall v,
    (forall a, In a arr -> element_of cleanAnchor els a <> None) ->
    exists v',
      scan cleanAnchor els arr v = Some v' /\
      ((exists before a after,
           arr = before ++ a :: after /\ v' = JStr a /\
           scrolled_past cleanAnchor els a /\
           Forall (fun b => ~ scrolled_past cleanAnchor els b) after)
       \/ (v' = v /\
           Forall (fun b => ~ scrolled_past cleanAnchor els b) arr)).
Proof.
  induction arr as [|a rest IH]; intros v Hall; simpl.
  - exists v. split; [reflexivity|]. right. split; [reflexivity | constructor].
  - destruct (element_of cleanAnchor els a) as [el|] eqn:Hel.
    2:{ exfalso. apply (Hall a); [now left | exact Hel]. }
    destruct (IH (if past_threshold (top el) then JStr a else v))
      as [v' [Hscan Hcases]].
    { intros b Hb. apply Hall. now right. }
    exists v'. split; [exact Hscan|].
    destruct Hcases as [[before [b [after [Harr [Hv' [Hb Hafter]]]]]]
                       | [Hv' Hnone]].
    + left. exists (a :: before), b, after. subst rest.
      repeat split; auto.
    + destruct (past_threshold (top el)) eqn:Hpast.
      * left. exists [], a, rest. repeat split; auto.
        exists el. split; [exact Hel|]. now apply past_threshold_lt.
      * right. split; [exact Hv'|]. constructor; [|exact Hnone].
        intros [el' [Hel' Hlt]]. rewrite Hel in Hel'.
        injection Hel' as <-. apply past_threshold_lt in Hlt. congruence.
Qed.

(** The loop stops at a missing element. *)
Lemma scan_missing (els : list element) (arr : list string) :
  forall v,
    (exists a, In a arr /\ element_of cleanAnchor els a = None) ->
    scan cleanAnchor els arr v = None.
Proof.
  induction arr as [|a rest IH]; intros v [b [Hin Hb]]; simpl.
  - destruct Hin.
  - destruct (element_of cleanAnchor els a) as [el|] eqn:Hel;
      [|reflexivity].
    apply IH. destruct Hin as [<-|Hin]; [congruence|]. now exists b.
Qed.

(** The loop only answers its starting value or one of the anchors. *)
Lemma scan_result (els : list element) (arr : list string) :
  forall v v',
    scan cleanAnchor els arr v = Some v' ->
    v' = v \/ exists a, v' = JStr a /\ In a arr.
Proof.
  induction arr as [|a rest IH]; intros v v'; simpl.
  - intros [= <-]. now left.
  - destruct (element_of cleanAnchor els a) as [el|]; [|discriminate].
    intros H. apply IH in H. destruct H as [->|[b [-> Hb]]].
    + destruct (past_threshold (top el)); [right | now left].
      exists a. split; [reflexivity | now left].
    + right. exists b. split; [reflexivity | now right].
Qed.

(** The loop depends on the elements only through the top offsets of
    the anchors' elements. *)
Lemma scan_ext (els1 els2 : list element) (arr : list string) :
  forall v,
    (forall a, In a arr ->
       option_map top (element_of cleanAnchor els1 a) =
       option_map top (element_of cleanAnchor els2 a)) ->
    scan cleanAnchor els1 arr v = scan cleanAnchor els2 arr v.
Proof.
  induction arr as [|a rest IH]; intros v Hsame; simpl; [reflexivity|].
  pose proof (Hsame a (or_introl eq_refl)) as Ha.
  destruct (element_of cleanAnchor els1 a) as [e1|],
           (element_of cleanAnchor els2 a) as [e2|];
    simpl in Ha; try discriminate; [|reflexivity].
  injection Ha as ->. apply IH. intros b Hb. apply Hsame. now right.
Qed.

End OnScroll.

(** ** The scroll recomputation *)

(** The two scenarios of the spec: with [A] and [B] past the threshold
    and [C] not, the active anchor is [B]; with none past it, [A]. *)
Example onScroll_A_B_passed :
  activeAnchor
    (state (this (snd (onScroll example_ROUTES cleanAnchor
                         (example_page A_B_passed))))) = JStr "B".
Proof. vm_compute. reflexivity. Qed.

Example onScroll_none_passed :
  activeAnchor
    (state (this (snd (onScroll example_ROUTES cleanAnchor
                         (example_page none_passed))))) = JStr "A".
Proof. vm_compute. reflexivity. Qed.

(** C1. On a route with a non-empty anchor list whose anchors all have
    their element in the document, one run of [onScroll] returns and sets
    the active anchor to the last anchor, in list order, whose element's
    top offset minus 26 is negative, and to the first anchor of the list
    when no anchor is in that case. *)
Theorem onScroll_last_anchor_past_threshold
    (ROUTES : list route) (cleanAnchor : string -> string) (w : world)
    (r : route) (first : string) (rest : list string) :
  array_get ROUTES (getPathIndex ROUTES (this w)) = Some r ->
  anchors r = Some (first :: rest) ->
  (forall a, In a (first :: rest) ->
     element_of cleanAnchor (elements w) a <> None) ->
  exists (w' : world) (a : string),
    onScroll ROUTES cleanAnchor w = (Return tt, w') /\
    activeAnchor (state (this w')) = JStr a /\
    ((exists before after,
         first :: rest = before ++ a :: after /\
         scrolled_past cleanAnchor (elements w) a /\
         Forall (fun b => ~ scrolled_past cleanAnchor (elements w) b) after)
     \/ (a = first /\
         Forall (fun b => ~ scrolled_past cleanAnchor (elements w) b)
           (first :: rest))).
Proof.
  intros Hroute Hanchors Hpresent.
  rewrite onScroll_unfold, Hroute, Hanchors.
  destruct (scan_all_present cleanAnchor (elements w) (first :: rest)
              (array_first (first :: rest)) Hpresent)
    as [v [Hscan Hcases]].
  rewrite Hscan.
  destruct Hcases as [[before [a [after [Harr [-> [Ha Hafter]]]]]]
                     | [-> Hnone]].
  - eexists. exists a. split; [reflexivity|]. split; [reflexivity|].
    left. exists before, after. auto.
  - eexists. exists first. split; [reflexivity|]. split; [reflexivity|].
    right. auto.
Qed.

Lemma onScroll_last_anchor_past_threshold_witness :
  exists (w' : world) (a : string),
    onScroll example_ROUTES cleanAnchor (example_page A_B_passed)
      = (Return tt, w') /\
    activeAnchor (state (this w')) = JStr a /\
    ((exists before after,
         ["A"; "B"; "C"] = before ++ a :: after /\
         scrolled_past cleanAnchor A_B_passed a /\
         Forall (fun b => ~ scrolled_past cleanAnchor A_B_passed b) after)
     \/ (a = "A" /\
         Forall (fun b => ~ scrolled_past cleanAnchor A_B_passed b)
           ["A"; "B"; "C"])).
Proof.
  apply (onScroll_last_anchor_past_threshold example_ROUTES cleanAnchor
           (example_page A_B_passed)
           (mkRoute "/react" "Use with React" (Some ["A"; "B"; "C"]))
           "A" ["B"; "C"]).
  - reflexivity.
  - reflexivity.
  - intros a [<-|[<-|[<-|[]]]]; vm_compute; discriminate.
Defined.

(** The claim C2 read on the example page with the heading of [B]
    missing: [onScroll] would return, with the active anchor that the
    skipping loop finds. *)
Lemma onScroll_missing_element_counterexample :
  ~ (exists w' : world,
       onScroll example_ROUTES cleanAnchor (example_page B_missing)
         = (Return tt, w') /\
       activeAnchor (state (this w')) =
         scan_skipping cleanAnchor B_missing ["A"; "B"; "C"] (JStr "A")).
Proof.
  intros [w' [Hrun _]]. vm_compute in Hrun. discriminate Hrun.
Qed.

(** There the skipping loop would answer [C], while [onScroll] throws
    after the lookup of [B] and leaves the active anchor at [A]. *)
Example onScroll_B_missing :
  scan_skipping cleanAnchor B_missing ["A"; "B"; "C"] (JStr "A") = JStr "C"
  /\ fst (onScroll example_ROUTES cleanAnchor (example_page B_missing))
     = Throw_TypeError
  /\ activeAnchor
       (state (this (snd (onScroll example_ROUTES cleanAnchor
                            (example_page B_missing))))) = JStr "A"
  /\ queries (snd (onScroll example_ROUTES cleanAnchor
                     (example_page B_missing)))
     = [GetElementById "a"; GetBoundingClientRect "a"; GetElementById "b"].
Proof. vm_compute. repeat split. Qed.

(** C2, amended. When the element of some anchor of the current route is
    missing from the document, [onScroll] does not skip it: the run
    throws a [TypeError] and the component, its active anchor included,
    is left as it was. *)
Theorem onScroll_missing_element_throws
    (ROUTES : list route) (cleanAnchor : string -> string) (w : world)
    (r : route) (arr : list string) :
  array_get ROUTES (getPathIndex ROUTES (this w)) = Some r ->
  anchors r = Some arr ->
  (exists a, In a arr /\ element_of cleanAnchor (elements w) a = None) ->
  fst (onScroll ROUTES cleanAnchor w) = Throw_TypeError /\
  this (snd (onScroll ROUTES cleanAnchor w)) = this w.
Proof.
  intros Hroute Hanchors Hmissing.
  rewrite onScroll_unfold, Hroute, Hanchors.
  rewrite (scan_missing cleanAnchor (elements w) arr _ Hmissing).
  split; reflexivity.
Qed.

Lemma onScroll_missing_element_throws_witness :
  fst (onScroll example_ROUTES cleanAnchor (example_page B_missing))
    = Throw_TypeError /\
  this (snd (onScroll example_ROUTES cleanAnchor (example_page B_missing)))
    = this (example_page B_missing).
Proof.
  apply (onScroll_missing_element_throws example_ROUTES cleanAnchor
           (example_page B_missing)
           (mkRoute "/react" "Use with React" (Some ["A"; "B"; "C"]))
           ["A"; "B"; "C"]).
  - reflexivity.
  - reflexivity.
  - exists "B". split; [simpl; auto | reflexivity].
Defined.

(** C10. [onScroll] does not read the stored active anchor: two runs on
    routes with the same anchor list, in documents where the elements of
    these anchors have the same top offsets, throw together or return
    together, and then set the same active anchor, whatever the component
    states were before. *)
Theorem onScroll_memoryless
    (ROUTES : list route) (cleanAnchor : string -> string) (w1 w2 : world)
    (r1 r2 : route) (arr : list string) :
  array_get ROUTES (getPathIndex ROUTES (this w1)) = Some r1 ->
  array_get ROUTES (getPathIndex ROUTES (this w2)) = Some r2 ->
  anchors r1 = Some arr ->
  anchors r2 = Some arr ->
  (forall a, In a arr ->
     option_map top (element_of cleanAnchor (elements w1) a) =
     option_map top (element_of cleanAnchor (elements w2) a)) ->
  fst (onScroll ROUTES cleanAnchor w1) = fst (onScroll ROUTES cleanAnchor w2)
  /\ (fst (onScroll ROUTES cleanAnchor w1) = Return tt ->
      activeAnchor (state (this (snd (onScroll ROUTES cleanAnchor w1)))) =
      activeAnchor (state (this (snd (onScroll ROUTES cleanAnchor w2))))).
Proof.
  intros H1 H2 Ha1 Ha2 Hsame.
  rewrite !onScroll_unfold, H1, H2, Ha1, Ha2.
  rewrite (scan_ext cleanAnchor (elements w1) (elements w2) arr _ Hsame).
  destruct (scan cleanAnchor (elements w2) arr (array_first arr));
    split; try reflexivity.
  simpl. discriminate.
Qed.

(** ** The lifetime of a page view *)

Section Lifetime.

Variable ROUTES : list route.
Variable cleanAnchor : string -> string.

Lemma getPathIndex_props (self self' : Layout) :
  props self = props self' ->
  getPathIndex ROUTES self = getPathIndex ROUTES self'.
Proof.
  unfold getPathIndex, getPathIndex_callback. intros ->. reflexivity.
Qed.

Lemma componentDidMount_unfold (w : world) :
  componentDidMount ROUTES cleanAnchor w =
  match array_get ROUTES (getPathIndex ROUTES (this w)) with
  | None => (Throw_TypeError, w)
  | Some r =>
      match anchors r with
      | None => (Return tt, w)
      | Some _ => onScroll ROUTES cleanAnchor (registered w)
      end
  end.
Proof.
  unfold componentDidMount, bind at 1, get_this, bind at 1, ROUTES_anchors.
  destruct (array_get ROUTES (getPathIndex ROUTES (this w))) as [r|];
    [|reflexivity].
  unfold ret. destruct (anchors r); reflexivity.
Qed.

Lemma step_Mount (w : world) (els : list element) :
  step ROUTES cleanAnchor w (Mount els) =
  snd (componentDidMount ROUTES cleanAnchor (with_elements w els)).
Proof. reflexivity. Qed.

Lemma step_ScrollFrame (w : world) (els : list element) :
  step ROUTES cleanAnchor w (ScrollFrame els) =
  if existsb (listener_eqb debouncedOnScroll) (scrollListeners w)
  then snd (onScroll ROUTES cleanAnchor (with_elements w els))
  else with_elements w els.
Proof.
  unfold step, dispatch, bind, set_elements, has_listener. simpl.
  destruct (existsb _ (scrollListeners w)); reflexivity.
Qed.

Lemma step_Unmount (w : world) :
  step ROUTES cleanAnchor w Unmount =
  snd (removeEventListener debouncedOnScroll w).
Proof. reflexivity. Qed.

(** [onScroll] leaves the component alone or sets its active anchor to
    what the loop found over the current route's anchors. *)
Lemma onScroll_this (w : world) :
  this (snd (onScroll ROUTES cleanAnchor w)) = this w
  \/ exists r arr v,
       array_get ROUTES (getPathIndex ROUTES (this w)) = Some r /\
       anchors r = Some arr /\
       scan cleanAnchor (elements w) arr (array_first arr) = Some v /\
       this (snd (onScroll ROUTES cleanAnchor w)) =
         mkLayout (props (this w))
           (mkState (sidebarVisible (state (this w))) v).
Proof.
  rewrite onScroll_unfold.
  destruct (array_get ROUTES (getPathIndex ROUTES (this w))) as [r|] eqn:Hr;
    [|now left].
  destruct (anchors r) as [arr|] eqn:Harr; [|now left].
  destruct (scan cleanAnchor (elements w) arr (array_first arr)) as [v|]
    eqn:Hscan; [|now left].
  right. exists r, arr, v. auto.
Qed.

Lemma step_this (w : world) (e : event) :
  this (step ROUTES cleanAnchor w e) = this w
  \/ exists r arr els v,
       array_get ROUTES (getPathIndex ROUTES (this w)) = Some r /\
       anchors r = Some arr /\
       scan cleanAnchor els arr (array_first arr) = Some v /\
       this (step ROUTES cleanAnchor w e) =
         mkLayout (props (this w))
           (mkState (sidebarVisible (state (this w))) v).
Proof.
  destruct e as [els|els|].
  - rewrite step_Mount, componentDidMount_unfold.
    change (this (with_elements w els)) with (this w).
    pose proof (onScroll_this (registered (with_elements w els))) as H.
    change (this (registered (with_elements w els))) with (this w) in H.
    change (elements (registered (with_elements w els))) with els in H.
    destruct (array_get ROUTES (getPathIndex ROUTES (this w))) as [r|];
      [|now left].
    destruct (anchors r); [|now left].
    destruct H as [H|[r' [arr [v H]]]].
    + left. exact H.
    + right. exists r', arr, els, v. exact H.
  - rewrite step_ScrollFrame.
    destruct (existsb _ (scrollListeners w)); [|now left].
    destruct (onScroll_this (with_elements w els))
      as [H|[r' [arr [v H]]]].
    + left. exact H.
    + right. exists r', arr, els, v. exact H.
  - now left.
Qed.

Lemma step_props (w : world) (e : event) :
  props (this (step ROUTES cleanAnchor w e)) = props (this w).
Proof.
  destruct (step_this w e) as [->|[r [arr [els [v [_ [_ [_ ->]]]]]]]];
    reflexivity.
Qed.

Lemma step_current_anchors (w : world) (e : event) :
  current_anchors ROUTES (this (step ROUTES cleanAnchor w e)) =
  current_anchors ROUTES (this w).
Proof.
  unfold current_anchors.
  now rewrite (getPathIndex_props _ _ (step_props w e)).
Qed.

(** A property of the first world that every step keeps holds all
    along the page view. *)
Lemma run_invariant (P : world -> Prop) :
  (forall w e, P w -> P (step ROUTES cleanAnchor w e)) ->
  forall es w, P w -> P (run ROUTES cleanAnchor w es).
Proof.
  intros Hstep es. induction es as [|e es IH]; intros w Hw; simpl.
  - exact Hw.
  - apply IH, Hstep, Hw.
Qed.

Lemma run_app (w : world) (es1 es2 : list event) :
  run ROUTES cleanAnchor w (es1 ++ es2) =
  run ROUTES cleanAnchor (run ROUTES cleanAnchor w es1) es2.
Proof. apply fold_left_app. Qed.

(** The element queries of one step are those of the loop over the
    current route's anchors, when the step runs the loop at all. *)
Lemma step_queries (w : world) (e : event) :
  queries (step ROUTES cleanAnchor w e) = queries w
  \/ exists els,
       queries (step ROUTES cleanAnchor w e) =
       queries w ++
       scan_queries cleanAnchor els (current_anchors ROUTES (this w)).
Proof.
  assert (Hscroll : forall w0,
    queries (snd (onScroll ROUTES cleanAnchor w0)) = queries w0
    \/ queries (snd (onScroll ROUTES cleanAnchor w0)) =
       queries w0 ++
       scan_queries cleanAnchor (elements w0)
         (current_anchors ROUTES (this w0))).
  { intros w0. rewrite onScroll_unfold. unfold current_anchors.
    destruct (array_get ROUTES (getPathIndex ROUTES (this w0))) as [r|];
      [|now left].
    destruct (anchors r) as [arr|]; [|now left].
    destruct (scan cleanAnchor (elements w0) arr (array_first arr));
      right; reflexivity. }
  destruct e as [els|els|].
  - rewrite step_Mount, componentDidMount_unfold.
    change (this (with_elements w els)) with (this w).
    destruct (array_get ROUTES (getPathIndex ROUTES (this w))) as [r|];
      [|now left].
    destruct (anchors r); [|now left].
    destruct (Hscroll (registered (with_elements w els))) as [H|H].
    + left. exact H.
    + right. exists els. exact H.
  - rewrite step_ScrollFrame.
    destruct (existsb _ (scrollListeners w)); [|now left].
    destruct (Hscroll (with_elements w els)) as [H|H].
    + left. exact H.
    + right. exists els. exact H.
  - now left.
Qed.

Lemma array_first_cases (arr : list string) :
  array_first arr = JUndefined
  \/ exists a, array_first arr = JStr a /\ In a arr.
Proof.
  destruct arr as [|a rest]; [now left|].
  right. exists a. split; [reflexivity | now left].
Qed.

Lemma page_view_anchor (p : Props) :
  anchor_of_current_route ROUTES (page_view ROUTES p).
Proof.
  unfold anchor_of_current_route, current_anchors, page_view, new_Layout,
    initial_state, no_anchor, isArray_anchors.
  unfold getPathIndex, getPathIndex_callback.
  cbn [this state activeAnchor props].
  destruct (array_get ROUTES (findIndex _ ROUTES)) as [r|]; [|auto].
  destruct (anchors r) as [arr|]; [|auto].
  destruct (array_first_cases arr) as [->|[a [-> Ha]]]; [auto|].
  right. exists a. auto.
Qed.

Lemma step_anchor (w : world) (e : event) :
  anchor_of_current_route ROUTES w ->
  anchor_of_current_route ROUTES (step ROUTES cleanAnchor w e).
Proof.
  unfold anchor_of_current_route. intros Hw.
  rewrite step_current_anchors.
  destruct (step_this w e) as [->|[r [arr [els [v [Hr [Harr [Hscan ->]]]]]]]];
    [exact Hw|].
  cbn [state activeAnchor].
  assert (Hcur : current_anchors ROUTES (this w) = arr).
  { unfold current_anchors. now rewrite Hr, Harr. }
  rewrite Hcur.
  destruct (scan_result cleanAnchor els arr _ _ Hscan) as [->|[a [-> Ha]]].
  - destruct (array_first_cases arr) as [->|[a [-> Ha]]].
    + left. now right.
    + right. exists a. auto.
  - right. exists a. auto.
Qed.

Lemma onScroll_listeners (w : world) :
  scrollListeners (snd (onScroll ROUTES cleanAnchor w)) = scrollListeners w.
Proof.
  rewrite onScroll_unfold.
  destruct (array_get ROUTES (getPathIndex ROUTES (this w))) as [r|];
    [|reflexivity].
  destruct (anchors r) as [arr|]; [|reflexivity].
  destruct (scan cleanAnchor (elements w) arr (array_first arr));
    reflexivity.
Qed.

Lemma step_Unmount_listeners (w : world) :
  scrollListeners (step ROUTES cleanAnchor w Unmount) = [].
Proof.
  rewrite step_Unmount. unfold removeEventListener. simpl.
  induction (scrollListeners w) as [|[] ls IH]; simpl; auto.
Qed.

(** On a route without an anchor list no step registers a listener. *)
Lemma step_listeners_no_list (w : world) (e : event) (r : route) :
  array_get ROUTES (getPathIndex ROUTES (this w)) = Some r ->
  anchors r = None ->
  scrollListeners w = [] ->
  scrollListeners (step ROUTES cleanAnchor w e) = [].
Proof.
  intros Hr Hnone Hw. destruct e as [els|els|].
  - rewrite step_Mount, componentDidMount_unfold.
    change (this (with_elements w els)) with (this w).
    rewrite Hr, Hnone. exact Hw.
  - rewrite step_ScrollFrame, Hw. exact Hw.
  - apply step_Unmount_listeners.
Qed.

(** Mounting a fresh page view on a route that has an anchor list. *)
Lemma mount_with_list (p : Props) (els : list element) (r : route)
    (arr : list string) :
  array_get ROUTES (getPathIndex ROUTES (new_Layout ROUTES p)) = Some r ->
  anchors r = Some arr ->
  step ROUTES cleanAnchor (page_view ROUTES p) (Mount els)
  = snd (onScroll ROUTES cleanAnchor
           (mkWorld (new_Layout ROUTES p) els [debouncedOnScroll] [])).
Proof.
  intros Hr Harr. rewrite step_Mount, componentDidMount_unfold.
  change (this (with_elements (page_view ROUTES p) els))
    with (new_Layout ROUTES p).
  rewrite Hr, Harr. reflexivity.
Qed.

(** The active anchor the constructor stores. *)
Lemma page_view_activeAnchor (p : Props) :
  activeAnchor (state (this (page_view ROUTES p))) =
  match array_get ROUTES (getPathIndex ROUTES (new_Layout ROUTES p)) with
  | Some r =>
      match anchors r with
      | Some arr => array_first arr
      | None => JNull
      end
  | None => JNull
  end.
Proof.
  unfold page_view, new_Layout, initial_state, isArray_anchors,
    getPathIndex, getPathIndex_callback.
  cbn [this state activeAnchor props].
  destruct (array_get ROUTES (findIndex _ ROUTES)) as [r|]; [|reflexivity].
  destruct (anchors r); reflexivity.
Qed.

(** The route of a component whose props are [p]. *)
Lemma route_of_props (w : world) (p : Props) :
  props (this w) = p ->
  array_get ROUTES (getPathIndex ROUTES (this w)) =
  array_get ROUTES (getPathIndex ROUTES (new_Layout ROUTES p)).
Proof.
  intros Hp. f_equal. apply getPathIndex_props. exact Hp.
Qed.

End Lifetime.

(** C6. Before any recomputation the active anchor is the first anchor
    of the current route's list when the path matches a route that has
    one ([anchors[0]], which is [undefined] when the list is an empty
    array), and [null] when no route matches or the route has no list. *)
Theorem initial_activeAnchor (ROUTES : list route) (p : Props) :
  (forall r first rest,
      array_get ROUTES (getPathIndex ROUTES (new_Layout ROUTES p)) = Some r ->
      anchors r = Some (first :: rest) ->
      activeAnchor (state (this (page_view ROUTES p))) = JStr first)
  /\ (forall r,
      array_get ROUTES (getPathIndex ROUTES (new_Layout ROUTES p)) = Some r ->
      anchors r = Some [] ->
      activeAnchor (state (this (page_view ROUTES p))) = JUndefined)
  /\ (array_get ROUTES (getPathIndex ROUTES (new_Layout ROUTES p)) = None
      \/ (exists r,
            array_get ROUTES (getPathIndex ROUTES (new_Layout ROUTES p))
              = Some r /\ anchors r = None) ->
      activeAnchor (state (this (page_view ROUTES p))) = JNull).
Proof.
  rewrite page_view_activeAnchor.
  repeat split.
  - intros r first rest -> ->. reflexivity.
  - intros r -> ->. reflexivity.
  - intros [->|[r [-> ->]]]; reflexivity.
Qed.

Lemma initial_activeAnchor_witness :
  activeAnchor (state (this (page_view example_ROUTES (mkProps "/react/"))))
    = JStr "A"
  /\ activeAnchor (state (this (page_view example_ROUTES (mkProps "/"))))
    = JUndefined
  /\ activeAnchor
       (state (this (page_view example_ROUTES (mkProps "getting-started"))))
    = JNull.
Proof.
  split; [|split].
  - apply (proj1 (initial_activeAnchor example_ROUTES (mkProps "/react/"))
             (mkRoute "/react" "Use with React" (Some ["A"; "B"; "C"]))
             "A" ["B"; "C"]); reflexivity.
  - apply (proj1 (proj2 (initial_activeAnchor example_ROUTES (mkProps "/")))
             (mkRoute "/" "Introduction" (Some []))); reflexivity.
  - apply (proj2 (proj2 (initial_activeAnchor example_ROUTES
                           (mkProps "getting-started")))).
    right. exists (mkRoute "/getting-started" "Getting Started" None).
    split; reflexivity.
Defined.

(** C7. All along a page view, after the constructor and after any
    sequence of mounts, scroll recomputations and unmounts, the route of
    the component is the one it started on and the active anchor is
    either "no anchor" or one of the anchors of that route. *)
Theorem activeAnchor_of_current_route
    (ROUTES : list route) (cleanAnchor : string -> string) (p : Props)
    (es : list event) :
  current_anchors ROUTES
    (this (run ROUTES cleanAnchor (page_view ROUTES p) es))
  = current_anchors ROUTES (new_Layout ROUTES p)
  /\ anchor_of_current_route ROUTES
       (run ROUTES cleanAnchor (page_view ROUTES p) es).
Proof.
  apply (run_invariant ROUTES cleanAnchor
           (fun w =>
              current_anchors ROUTES (this w)
              = current_anchors ROUTES (new_Layout ROUTES p)
              /\ anchor_of_current_route ROUTES w)).
  - intros w e [Hcur Hanchor]. split.
    + now rewrite step_current_anchors.
    + now apply step_anchor.
  - split; [reflexivity | apply page_view_anchor].
Qed.

(** The claim C3 read on the first page of the example site, whose anchor
    list is the empty array: no listener would be registered by the
    mount, no element queried and the state would stay "no anchor". *)
Lemma empty_anchor_list_counterexample :
  array_get example_ROUTES
    (getPathIndex example_ROUTES (new_Layout example_ROUTES (mkProps "/")))
  = Some (mkRoute "/" "Introduction" (Some []))
  /\ ~ (scrollListeners
         (step example_ROUTES cleanAnchor
            (page_view example_ROUTES (mkProps "/")) (Mount [])) = []
       /\ queries
            (step example_ROUTES cleanAnchor
               (page_view example_ROUTES (mkProps "/")) (Mount [])) = []
       /\ no_anchor
            (activeAnchor
               (state (this (step example_ROUTES cleanAnchor
                               (page_view example_ROUTES (mkProps "/"))
                               (Mount [])))))).
Proof.
  split; [reflexivity|].
  intros [Hlisteners _]. vm_compute in Hlisteners. discriminate Hlisteners.
Qed.

(** C3, amended. On a route whose anchor list is an empty array the mount
    does register the scroll listener, yet all along the page view no
    element is looked up or measured and the active anchor stays
    [undefined]; on a route with no anchor list at all no listener is ever
    registered, no element is queried and the active anchor stays
    [null]. *)
Theorem empty_anchor_list_lifetime
    (ROUTES : list route) (cleanAnchor : string -> string) (p : Props)
    (r : route) :
  array_get ROUTES (getPathIndex ROUTES (new_Layout ROUTES p)) = Some r ->
  (anchors r = Some [] ->
   (forall els,
       scrollListeners
         (step ROUTES cleanAnchor (page_view ROUTES p) (Mount els))
       = [debouncedOnScroll])
   /\ (forall es,
         queries (run ROUTES cleanAnchor (page_view ROUTES p) es) = []
         /\ activeAnchor
              (state (this (run ROUTES cleanAnchor (page_view ROUTES p) es)))
            = JUndefined))
  /\ (anchors r = None ->
      forall es,
        scrollListeners (run ROUTES cleanAnchor (page_view ROUTES p) es) = []
        /\ queries (run ROUTES cleanAnchor (page_view ROUTES p) es) = []
        /\ activeAnchor
             (state (this (run ROUTES cleanAnchor (page_view ROUTES p) es)))
           = JNull).
Proof.
  intros Hr. split; intros Harr.
  - split.
    + intros els.
      rewrite (mount_with_list ROUTES cleanAnchor p els r [] Hr Harr).
      apply onScroll_listeners.
    + intros es.
      cut (props (this (run ROUTES cleanAnchor (page_view ROUTES p) es)) = p
           /\ queries (run ROUTES cleanAnchor (page_view ROUTES p) es) = []
           /\ activeAnchor
                (state (this (run ROUTES cleanAnchor (page_view ROUTES p) es)))
              = JUndefined); [tauto|].
      apply (run_invariant ROUTES cleanAnchor
               (fun w => props (this w) = p /\ queries w = []
                         /\ activeAnchor (state (this w)) = JUndefined)).
      * intros w e [Hp [Hq Ha]].
        pose proof (route_of_props ROUTES w p Hp) as Hroute.
        rewrite Hr in Hroute.
        split; [now rewrite step_props|]. split.
        -- destruct (step_queries ROUTES cleanAnchor w e) as [->|[els ->]];
             [exact Hq|].
           unfold current_anchors. rewrite Hroute, Harr, Hq. reflexivity.
        -- destruct (step_this ROUTES cleanAnchor w e)
             as [->|[r' [arr [els [v [Hr' [Harr' [Hscan ->]]]]]]]];
             [exact Ha|].
           rewrite Hroute in Hr'. injection Hr' as <-.
           rewrite Harr in Harr'. injection Harr' as <-.
           simpl in Hscan. injection Hscan as <-. reflexivity.
      * split; [reflexivity|]. split; [reflexivity|].
        rewrite page_view_activeAnchor, Hr, Harr. reflexivity.
  - intros es.
    cut (props (this (run ROUTES cleanAnchor (page_view ROUTES p) es)) = p
         /\ scrollListeners
              (run ROUTES cleanAnchor (page_view ROUTES p) es) = []
         /\ queries (run ROUTES cleanAnchor (page_view ROUTES p) es) = []
         /\ activeAnchor
              (state (this (run ROUTES cleanAnchor (page_view ROUTES p) es)))
            = JNull); [tauto|].
    apply (run_invariant ROUTES cleanAnchor
             (fun w => props (this w) = p /\ scrollListeners w = []
                       /\ queries w = []
                       /\ activeAnchor (state (this w)) = JNull)).
    + intros w e [Hp [Hl [Hq Ha]]].
      pose proof (route_of_props ROUTES w p Hp) as Hroute.
      rewrite Hr in Hroute.
      split; [now rewrite step_props|]. split; [|split].
      * now apply (step_listeners_no_list ROUTES cleanAnchor w e r).
      * destruct (step_queries ROUTES cleanAnchor w e) as [->|[els ->]];
          [exact Hq|].
        unfold current_anchors. rewrite Hroute, Harr, Hq. reflexivity.
      * destruct (step_this ROUTES cleanAnchor w e)
          as [->|[r' [arr [els [v [Hr' [Harr' _]]]]]]];
          [exact Ha|].
        rewrite Hroute in Hr'. injection Hr' as <-. congruence.
    + split; [reflexivity|]. split; [reflexivity|]. split; [reflexivity|].
      rewrite page_view_activeAnchor, Hr, Harr. reflexivity.
Qed.

Lemma empty_anchor_list_lifetime_witness :
  ((forall els,
       scrollListeners
         (step example_ROUTES cleanAnchor
            (page_view example_ROUTES (mkProps "/")) (Mount els))
       = [debouncedOnScroll])
   /\ (forall es,
         queries (run example_ROUTES cleanAnchor
                    (page_view example_ROUTES (mkProps "/")) es) = []
         /\ activeAnchor
              (state (this (run example_ROUTES cleanAnchor
                              (page_view example_ROUTES (mkProps "/")) es)))
            = JUndefined))
  /\ (forall es,
        scrollListeners
          (run example_ROUTES cleanAnchor
             (page_view example_ROUTES (mkProps "/getting-started")) es) = []
        /\ queries
             (run example_ROUTES cleanAnchor
                (page_view example_ROUTES (mkProps "/getting-started")) es)
           = []
        /\ activeAnchor
             (state (this (run example_ROUTES cleanAnchor
                             (page_view example_ROUTES
                                (mkProps "/getting-started")) es)))
           = JNull).
Proof.
  split.
  - apply (proj1 (empty_anchor_list_lifetime example_ROUTES cleanAnchor
                    (mkProps "/") (mkRoute "/" "Introduction" (Some []))
                    eq_refl)).
    reflexivity.
  - apply (proj2 (empty_anchor_list_lifetime example_ROUTES cleanAnchor
                    (mkProps "/getting-started")
                    (mkRoute "/getting-started" "Getting Started" None)
                    eq_refl)).
    reflexivity.
Defined.

(** ** Memory of the recomputation *)

(** The page [/react/] seen a second time: another spelling of the path,
    the sidebar open, [C] stored as active anchor, the listener registered,
    a longer document with the same headings at the same offsets. *)
Lemma onScroll_memoryless_witness :
  fst (onScroll example_ROUTES cleanAnchor (example_page A_B_passed))
  = fst (onScroll example_ROUTES cleanAnchor
           (mkWorld (mkLayout (mkProps "react") (mkState true (JStr "C")))
              (mkElement "top" 0 :: rev A_B_passed)
              [debouncedOnScroll] [GetElementById "top"]))
  /\ (fst (onScroll example_ROUTES cleanAnchor (example_page A_B_passed))
      = Return tt ->
      activeAnchor
        (state (this (snd (onScroll example_ROUTES cleanAnchor
                             (example_page A_B_passed)))))
      = activeAnchor
          (state (this (snd (onScroll example_ROUTES cleanAnchor
             (mkWorld (mkLayout (mkProps "react") (mkState true (JStr "C")))
                (mkElement "top" 0 :: rev A_B_passed)
                [debouncedOnScroll] [GetElementById "top"])))))).
Proof.
  apply (onScroll_memoryless example_ROUTES cleanAnchor
           (example_page A_B_passed)
           (mkWorld (mkLayout (mkProps "react") (mkState true (JStr "C")))
              (mkElement "top" 0 :: rev A_B_passed)
              [debouncedOnScroll] [GetElementById "top"])
           (mkRoute "/react" "Use with React" (Some ["A"; "B"; "C"]))
           (mkRoute "/react" "Use with React" (Some ["A"; "B"; "C"]))
           ["A"; "B"; "C"]).
  - reflexivity.
  - reflexivity.
  - reflexivity.
  - reflexivity.
  - intros a [<-|[<-|[<-|[]]]]; reflexivity.
Defined.

(** ** Matching the path *)

(** C5. The callback of [getPathIndex] selects a route exactly when its
    path and the current path are equal once every slash is removed;
    [getPathIndex] answers the first position of the table whose route is
    selected, and [-1] exactly when none is; so [/react/] selects the
    route [/react], and picks it in a table where it comes first among
    the routes selected. *)
Theorem getPathIndex_ignores_slashes :
  (forall (self : Layout) (r : route),
      getPathIndex_callback self r = true <->
      without_slashes (path r) = without_slashes (props_path (props self)))
  /\ (forall (ROUTES : list route) (self : Layout) (i : Z),
        (0 <= i)%Z ->
        (getPathIndex ROUTES self = i <->
         exists r,
           array_get ROUTES i = Some r /\
           without_slashes (path r)
             = without_slashes (props_path (props self)) /\
           forall j r', (0 <= j < i)%Z -> array_get ROUTES j = Some r' ->
             without_slashes (path r')
               <> without_slashes (props_path (props self))))
  /\ (forall (ROUTES : list route) (self : Layout),
        getPathIndex ROUTES self = (-1)%Z <->
        forall r, In r ROUTES ->
          without_slashes (path r)
            <> without_slashes (props_path (props self)))
  /\ (forall (st : State) (txt : string) (arr : option (list string)),
        getPathIndex_callback (mkLayout (mkProps "/react/") st)
          (mkRoute "/react" txt arr) = true).
Proof.
  pose proof getPathIndex_callback_iff as Hcb.
  assert (Hcbf : forall (self : Layout) (r : route),
             getPathIndex_callback self r = false <->
             without_slashes (path r)
               <> without_slashes (props_path (props self))).
  { intros self r. rewrite <- Hcb.
    destruct (getPathIndex_callback self r); split; congruence. }
  split; [exact Hcb|]. split; [|split].
  - intros ROUTES self i Hi. unfold getPathIndex, findIndex.
    rewrite (findIndex_from_some (getPathIndex_callback self) ROUTES 0 i)
      by lia.
    unfold array_get.
    destruct (Z.ltb_spec i 0) as [Hneg|_]; [lia|].
    split; intros [r [Hr [Hp Hfirst]]]; exists r;
      (split; [exact Hr|]); (split; [now apply Hcb|]).
    + intros j r' Hj. destruct (Z.ltb_spec j 0) as [Hneg|_]; [lia|].
      intros Hr'. apply Hcbf. apply (Hfirst (Z.to_nat j) r'); [lia|exact Hr'].
    + intros j r' Hj Hr'. apply Hcbf.
      apply (Hfirst (Z.of_nat j) r'); [lia|].
      destruct (Z.ltb_spec (Z.of_nat j) 0) as [Hneg|_]; [lia|].
      now rewrite Nat2Z.id.
  - intros ROUTES self. unfold getPathIndex, findIndex.
    rewrite findIndex_from_none by lia.
    split; intros H r Hr; apply Hcbf, H, Hr.
  - intros st txt arr. reflexivity.
Qed.

Lemma getPathIndex_ignores_slashes_witness :
  getPathIndex example_ROUTES (new_Layout example_ROUTES (mkProps "/react/"))
  = 2%Z.
Proof.
  apply (proj1 (proj2 getPathIndex_ignores_slashes) example_ROUTES
           (new_Layout example_ROUTES (mkProps "/react/")) 2%Z).
  - lia.
  - exists (mkRoute "/react" "Use with React" (Some ["A"; "B"; "C"])).
    split; [reflexivity|]. split; [reflexivity|].
    intros j r' Hj.
    assert (Hcases : j = 0%Z \/ j = 1%Z) by lia.
    destruct Hcases as [->| ->]; intros [= <-]; vm_compute; discriminate.
Defined.

(** ** The sidebar *)

Lemma jsval_eqb_JStr (v : jsval) (a : string) :
  jsval_eqb v (JStr a) = true <-> v = JStr a.
Proof.
  destruct v as [| |s]; simpl; try (split; discriminate).
  rewrite String.eqb_eq. split; congruence.
Qed.

Lemma map_index_from_Some {A B : Type} (f : A -> Z -> option B)
    (g : A -> Z -> B) (arr : list A) :
  forall i0,
    (forall j x, nth_error arr j = Some x ->
       f x (i0 + Z.of_nat j)%Z = Some (g x (i0 + Z.of_nat j)%Z)) ->
    exists ys,
      map_index_from f arr i0 = Some ys /\
      length ys = length arr /\
      forall j y, nth_error ys j = Some y ->
        exists x, nth_error arr j = Some x /\ y = g x (i0 + Z.of_nat j)%Z.
Proof.
  induction arr as [|x rest IH]; intros i0 Hf; simpl.
  - exists []. repeat split. intros [|j] y; discriminate.
  - pose proof (Hf 0%nat x eq_refl) as Hx.
    rewrite Z.add_0_r in Hx. rewrite Hx.
    destruct (IH (i0 + 1)%Z) as [ys [Hys [Hlen Hnth]]].
    { intros j y Hy. specialize (Hf (S j) y Hy).
      replace (i0 + 1 + Z.of_nat j)%Z with (i0 + Z.of_nat (S j))%Z by lia.
      exact Hf. }
    rewrite Hys. exists (g x i0 :: ys).
    split; [reflexivity|]. split; [simpl; now rewrite Hlen|].
    intros [|j] y Hy; simpl in Hy.
    + injection Hy as <-. exists x. now rewrite Z.add_0_r.
    + destruct (Hnth j y Hy) as [x' [Hx' ->]]. exists x'.
      split; [exact Hx'|]. f_equal. lia.
Qed.

Lemma Navigation_anchor_items (cleanAnchor : string -> string) (v : jsval)
    (arr : list string) :
  Forall2 (anchor_item_of cleanAnchor v) arr
    (map (Navigation_anchor cleanAnchor v) arr).
Proof.
  induction arr as [|a rest IH]; simpl; constructor; [|exact IH].
  unfold anchor_item_of, Navigation_anchor, strict_eq_str. simpl.
  repeat split; try apply jsval_eqb_JStr.
Qed.

Lemma no_active_anchor_item (cleanAnchor : string -> string) (a : string)
    (arr : list string) (items : list SidebarItem) :
  Forall2 (anchor_item_of cleanAnchor (JStr a)) arr items ->
  ~ In a arr ->
  active_anchor_items items = [].
Proof.
  induction 1 as [|b it arr' items' [_ [_ [_ Hact]]] _ IH]; intros Hnot;
    [reflexivity|].
  unfold active_anchor_items in *. simpl.
  destruct (link_active (item_link it)) eqn:Hit.
  - exfalso. apply Hnot. left.
    assert (Heq : JStr a = JStr b) by now apply Hact.
    now injection Heq.
  - apply IH. intros Hin. apply Hnot. now right.
Qed.

Lemma one_active_anchor_item (cleanAnchor : string -> string) (a : string)
    (arr : list string) (items : list SidebarItem) :
  Forall2 (anchor_item_of cleanAnchor (JStr a)) arr items ->
  NoDup arr -> In a arr ->
  exists it, active_anchor_items items = [it]
             /\ link_children (item_link it) = a.
Proof.
  induction 1 as [|b it arr' items' Hit Hrest IH]; intros Hnodup Hin;
    [destruct Hin|].
  inversion Hnodup as [|b' arr'' Hb Hnodup']; subst.
  pose proof Hit as [_ [Hchild [_ Hact]]].
  unfold active_anchor_items in *. simpl.
  destruct (String.eqb_spec a b) as [<-|Hneq].
  - rewrite (proj2 Hact eq_refl).
    pose proof (no_active_anchor_item cleanAnchor a arr' items' Hrest Hb)
      as Hnone.
    unfold active_anchor_items in Hnone. rewrite Hnone.
    exists it. split; [reflexivity | exact Hchild].
  - destruct (link_active (item_link it)) eqn:Hlink.
    + exfalso. apply Hneq.
      assert (Heq : JStr a = JStr b) by now apply Hact.
      now injection Heq.
    + apply IH; [exact Hnodup'|]. destruct Hin as [->|Hin]; [congruence|].
      exact Hin.
Qed.

Section Sidebar.

Variable ROUTES : list route.
Variable cleanAnchor : string -> string.

(** Rendering returns whenever the route at [pathIndex], if there is
    one, has an anchor list; the fragments are those of the routes, in
    order. *)
Lemma Navigation_fragments (isVisible : bool) (pathIndex : Z) (v : jsval)
    (arr : list string) :
  (forall r, array_get ROUTES pathIndex = Some r -> anchors r = Some arr) ->
  exists frags,
    Navigation ROUTES cleanAnchor isVisible pathIndex v
      = Some (mkSidebarList isVisible frags) /\
    length frags = length ROUTES /\
    forall j g, nth_error frags j = Some g ->
      exists r,
        nth_error ROUTES j = Some r /\
        key g = path r /\
        link_children (item_link (route_item g)) = text r /\
        item_active (route_item g) = (pathIndex =? Z.of_nat j)%Z /\
        link_active (item_link (route_item g))
          = (pathIndex =? Z.of_nat j)%Z /\
        anchor_items g =
          if (pathIndex =? Z.of_nat j)%Z
          then Some (map (Navigation_anchor cleanAnchor v) arr)
          else None.
Proof.
  intros Harr. unfold Navigation.
  pose (g := fun (r : route) (index : Z) =>
    mkFragment (path r)
      (mkSidebarItem false (pathIndex =? index)%Z (Some (path r))
         (mkStyledLink None (getATarget (path r)) (pathIndex =? index)%Z
            (text r)))
      (if (pathIndex =? index)%Z
       then Some (map (Navigation_anchor cleanAnchor v) arr)
       else None)).
  destruct (map_index_from_Some
              (Navigation_route ROUTES cleanAnchor pathIndex v) g ROUTES 0)
    as [frags [Hfrags [Hlen Hnth]]].
  { intros j x Hx. unfold Navigation_route, g. simpl.
    destruct (Z.eqb_spec pathIndex (Z.of_nat j)) as [Heq|]; [|reflexivity].
    assert (Hget : array_get ROUTES pathIndex = Some x).
    { unfold array_get. rewrite Heq.
      destruct (Z.ltb_spec (Z.of_nat j) 0); [lia|].
      now rewrite Nat2Z.id. }
    rewrite Hget, (Harr x Hget). reflexivity. }
  rewrite Hfrags. exists frags.
  split; [reflexivity|]. split; [exact Hlen|].
  intros j f Hf. destruct (Hnth j f Hf) as [r [Hr ->]].
  exists r. unfold g. simpl. repeat split; exact Hr || reflexivity.
Qed.

End Sidebar.

(** On a path that matches no route the sidebar is rendered with no route
    marked active and no anchor sub-item. *)
Example Navigation_no_route :
  option_map active_routes
    (render_Navigation example_ROUTES cleanAnchor
       (new_Layout example_ROUTES (mkProps "/api"))) = Some []
  /\ option_map (fun tree => map anchor_items (list_children tree))
       (render_Navigation example_ROUTES cleanAnchor
          (new_Layout example_ROUTES (mkProps "/api")))
     = Some [None; None; None].
Proof. vm_compute. split; reflexivity. Qed.

(** The claim C4 read on the example site for the path [/api], which is
    the path of no route. *)
Lemma Navigation_marks_exactly_one_counterexample :
  ~ Navigation_marks_exactly_one example_ROUTES cleanAnchor
      (new_Layout example_ROUTES (mkProps "/api")).
Proof.
  intros [tree [i [r [f [_ [Hr [_ [Hpath _]]]]]]]].
  destruct i as [|[|[|i]]]; simpl in Hr.
  - injection Hr as <-. vm_compute in Hpath. discriminate Hpath.
  - injection Hr as <-. vm_compute in Hpath. discriminate Hpath.
  - injection Hr as <-. vm_compute in Hpath. discriminate Hpath.
  - destruct i; discriminate Hr.
Qed.

(** C4, amended. When the current path matches a route, the one at the
    position [getPathIndex] answers (the first whose path equals the
    current path once slashes are stripped), and that route has an anchor
    list, the sidebar is rendered with that route and no other marked
    active and with anchor sub-items under that route only, one per anchor
    and in order; a sub-item is marked active exactly when its anchor is
    the tracked active anchor, so exactly one is marked when the tracked
    anchor belongs to a list without duplicates. *)
Theorem Navigation_marks_matching_route
    (ROUTES : list route) (cleanAnchor : string -> string) (self : Layout)
    (r : route) (arr : list string) :
  array_get ROUTES (getPathIndex ROUTES self) = Some r ->
  anchors r = Some arr ->
  exists tree f,
    render_Navigation ROUTES cleanAnchor self = Some tree /\
    nth_error (list_children tree) (Z.to_nat (getPathIndex ROUTES self))
      = Some f /\
    key f = path r /\
    without_slashes (path r) = without_slashes (props_path (props self)) /\
    (forall j g, nth_error (list_children tree) j = Some g ->
       (item_active (route_item g) = true
        <-> j = Z.to_nat (getPathIndex ROUTES self)) /\
       (link_active (item_link (route_item g)) = true
        <-> j = Z.to_nat (getPathIndex ROUTES self)) /\
       (j <> Z.to_nat (getPathIndex ROUTES self) -> anchor_items g = None)) /\
    exists items,
      anchor_items f = Some items /\
      Forall2 (anchor_item_of cleanAnchor (activeAnchor (state self)))
        arr items /\
      (forall a,
          activeAnchor (state self) = JStr a -> In a arr -> NoDup arr ->
          exists it, active_anchor_items items = [it]
                     /\ link_children (item_link it) = a).
Proof.
  intros Hr Harr.
  destruct (getPathIndex_route ROUTES self r Hr) as [Hpos [Hnth Hcb]].
  destruct (Navigation_fragments ROUTES cleanAnchor
              (sidebarVisible (state self)) (getPathIndex ROUTES self)
              (activeAnchor (state self)) arr)
    as [frags [Hrender [Hlen Hfrags]]].
  { intros r' Hr'. rewrite Hr in Hr'. injection Hr' as <-. exact Harr. }
  unfold render_Navigation. rewrite Hrender. cbn [list_children].
  destruct (nth_error frags (Z.to_nat (getPathIndex ROUTES self)))
    as [f|] eqn:Hf.
  2:{ exfalso. apply nth_error_None in Hf. rewrite Hlen in Hf.
      assert (Hlt : (Z.to_nat (getPathIndex ROUTES self) < length ROUTES)%nat)
        by (apply nth_error_Some; congruence).
      lia. }
  exists (mkSidebarList (sidebarVisible (state self)) frags), f.
  cbn [list_children].
  destruct (Hfrags _ f Hf) as [r' [Hr' [Hkey [_ [_ [_ Hitems]]]]]].
  rewrite Hnth in Hr'. injection Hr' as <-.
  split; [reflexivity|]. split; [exact Hf|]. split; [exact Hkey|].
  split; [now apply getPathIndex_callback_iff|]. split.
  - intros j g Hg.
    destruct (Hfrags j g Hg) as [rj [_ [_ [_ [Hact [Hlink Hanch]]]]]].
    rewrite Hact, Hlink, Hanch.
    destruct (Z.eqb_spec (getPathIndex ROUTES self) (Z.of_nat j)) as [Heq|Hne].
    + repeat split; intros; try lia; try reflexivity.
    + repeat split; intros; try lia; try discriminate; try reflexivity.
  - rewrite Z2Nat.id in Hitems by exact Hpos.
    rewrite Z.eqb_refl in Hitems.
    exists (map (Navigation_anchor cleanAnchor (activeAnchor (state self)))
              arr).
    split; [exact Hitems|]. split; [apply Navigation_anchor_items|].
    intros a Ha Hin Hnodup.
    apply (one_active_anchor_item cleanAnchor a arr); [|exact Hnodup|exact Hin].
    rewrite <- Ha. apply Navigation_anchor_items.
Qed.

Lemma Navigation_marks_matching_route_witness :
  exists tree f,
    render_Navigation example_ROUTES cleanAnchor
      (new_Layout example_ROUTES (mkProps "/react/")) = Some tree /\
    nth_error (list_children tree) 2 = Some f /\
    key f = "/react" /\
    without_slashes "/react" = without_slashes "/react/" /\
    (forall j g, nth_error (list_children tree) j = Some g ->
       (item_active (route_item g) = true <-> j = 2%nat) /\
       (link_active (item_link (route_item g)) = true <-> j = 2%nat) /\
       (j <> 2%nat -> anchor_items g = None)) /\
    exists items,
      anchor_items f = Some items /\
      Forall2 (anchor_item_of cleanAnchor (JStr "A")) ["A"; "B"; "C"] items /\
      (forall a,
          JStr "A" = JStr a -> In a ["A"; "B"; "C"] ->
          NoDup ["A"; "B"; "C"] ->
          exists it, active_anchor_items items = [it]
                     /\ link_children (item_link it) = a).
Proof.
  apply (Navigation_marks_matching_route example_ROUTES cleanAnchor
           (new_Layout example_ROUTES (mkProps "/react/"))
           (mkRoute "/react" "Use with React" (Some ["A"; "B"; "C"]))
           ["A"; "B"; "C"]).
  - reflexivity.
  - reflexivity.
Defined.

(** On a route without an anchor list, rendering the sidebar throws. *)
Example Navigation_no_anchor_list :
  render_Navigation example_ROUTES cleanAnchor
    (new_Layout example_ROUTES (mkProps "/getting-started")) = None.
Proof. reflexivity. Qed.

(** ** The identifier transform *)

Lemma lower_alnum_not_upper (c : ascii) :
  is_lower_alnum c = true -> is_upper c = false.
Proof.
  unfold is_lower_alnum, is_upper.
  destruct (Nat.leb_spec 65 (nat_of_ascii c)),
           (Nat.leb_spec (nat_of_ascii c) 90),
           (Nat.leb_spec 97 (nat_of_ascii c)),
           (Nat.leb_spec (nat_of_ascii c) 122),
           (Nat.leb_spec 48 (nat_of_ascii c)),
           (Nat.leb_spec (nat_of_ascii c) 57); simpl; intros; try reflexivity;
    try discriminate; lia.
Qed.

Lemma lower_alnum_to_lower (c : ascii) :
  is_lower_alnum c = true -> to_lower c = c.
Proof.
  intros H. unfold to_lower. now rewrite (lower_alnum_not_upper c H).
Qed.

Lemma lower_alnum_not_hyphen (c : ascii) :
  is_lower_alnum c = true -> Ascii.eqb c "-" = false.
Proof.
  intros H. destruct (Ascii.eqb_spec c "-") as [->|]; [|reflexivity].
  discriminate H.
Qed.

Lemma hyphen_not_lower_alnum : is_lower_alnum (to_lower "-") = false.
Proof. reflexivity. Qed.

(** On a string in which every hyphen is followed by a letter or digit,
    the scan in the middle of a word gives the string back. *)
Lemma clean_from_hyphen_tail (t : string) :
  hyphen_tail t = true ->
  clean_from t true false = t
  /\ (starts_alnum t = true -> clean_from t true true = String "-" t).
Proof.
  induction t as [|c t IH]; cbn [hyphen_tail clean_from starts_alnum];
    intros Ht.
  - split; [reflexivity | discriminate].
  - cbv zeta. destruct (Ascii.eqb_spec c "-") as [->|Hc].
    + apply andb_prop in Ht. destruct Ht as [Hstart Htail].
      destruct (IH Htail) as [_ IH2].
      rewrite hyphen_not_lower_alnum.
      split; [now rewrite (IH2 Hstart) | discriminate].
    + apply andb_prop in Ht. destruct Ht as [Halnum Htail].
      destruct (IH Htail) as [IH1 _].
      rewrite (lower_alnum_to_lower c Halnum), Halnum.
      cbn [andb]. rewrite IH1. split; reflexivity.
Qed.

Lemma cleanAnchor_hyphenated (t : string) :
  hyphenated t = true -> cleanAnchor t = t.
Proof.
  unfold cleanAnchor. destruct t as [|c t]; [reflexivity|].
  unfold hyphenated. intros H. apply andb_prop in H.
  destruct H as [Hstart Htail]. simpl in Hstart.
  simpl in Htail. rewrite (lower_alnum_not_hyphen c Hstart) in Htail.
  apply andb_prop in Htail. destruct Htail as [_ Htail].
  cbn [clean_from]. cbv zeta.
  rewrite (lower_alnum_to_lower c Hstart), Hstart. cbn [andb].
  now rewrite (proj1 (clean_from_hyphen_tail t Htail)).
Qed.

(** What the scan writes: every hyphen is followed by a letter or digit,
    and from the start of the string the first character is not a
    hyphen. *)
Lemma clean_from_form (s : string) :
  forall started pending,
    hyphen_tail (clean_from s started pending) = true
    /\ (started = false -> hyphenated (clean_from s started pending) = true).
Proof.
  induction s as [|c s IH]; intros started pending; cbn [clean_from].
  - split; reflexivity.
  - cbv zeta. destruct (is_lower_alnum (to_lower c)) eqn:Halnum.
    + destruct (IH true false) as [Htail _].
      pose proof (lower_alnum_not_hyphen _ Halnum) as Hnot.
      destruct (started && pending) eqn:Hsp.
      * split.
        -- cbn [hyphen_tail starts_alnum]. change (Ascii.eqb "-" "-") with true.
           cbv iota. rewrite Halnum, Hnot, Htail. reflexivity.
        -- intros ->. discriminate Hsp.
      * split.
        -- cbn [hyphen_tail]. rewrite Hnot, Halnum, Htail. reflexivity.
        -- intros _. unfold hyphenated. cbn [hyphen_tail starts_alnum].
           rewrite Hnot, Halnum, Htail. reflexivity.
    + destruct (IH started started) as [Htail Hstart].
      split; [exact Htail|]. intros ->. now apply Hstart.
Qed.

Lemma cleanAnchor_is_hyphenated (s : string) :
  hyphenated (cleanAnchor s) = true.
Proof. now apply (clean_from_form s false false). Qed.

(** C9. The identifier transform is a function on all strings, and it is
    idempotent; lowercase hyphenated strings are left as they are;
    ["Composing Styles"] becomes ["composing-styles"] and ["$as prop"]
    becomes ["as-prop"]; the empty string stays empty. *)
Theorem cleanAnchor_idempotent :
  (forall s, cleanAnchor (cleanAnchor s) = cleanAnchor s)
  /\ (forall s, hyphenated s = true -> cleanAnchor s = s)
  /\ cleanAnchor "Composing Styles" = "composing-styles"
  /\ cleanAnchor "$as prop" = "as-prop"
  /\ cleanAnchor "" = "".
Proof.
  split; [|split; [|repeat split]].
  - intros s. apply cleanAnchor_hyphenated, cleanAnchor_is_hyphenated.
  - exact cleanAnchor_hyphenated.
Qed.

Lemma cleanAnchor_idempotent_witness :
  cleanAnchor "composing-styles" = "composing-styles".
Proof.
  apply (proj1 (proj2 cleanAnchor_idempotent) "composing-styles").
  reflexivity.
Defined.

(** * Further properties of the components *)

(** ** The position [getPathIndex] answers *)

(** [getPathIndex] answers [-1], where [ROUTES[-1]] is [undefined] and no
    route is selected by the callback, or a position of the table whose
    route is selected. *)
Theorem getPathIndex_in_bounds (ROUTES : list route) (self : Layout) :
  (getPathIndex ROUTES self = (-1)%Z
   /\ array_get ROUTES (getPathIndex ROUTES self) = None
   /\ forall r, In r ROUTES -> getPathIndex_callback self r = false)
  \/ ((0 <= getPathIndex ROUTES self < Z.of_nat (length ROUTES))%Z
      /\ exists r,
           array_get ROUTES (getPathIndex ROUTES self) = Some r
           /\ getPathIndex_callback self r = true).
Proof.
  unfold getPathIndex, findIndex.
  destruct (findIndex_from_range (getPathIndex_callback self) ROUTES 0)
    as [Hnone|Hrange].
  - left. split; [exact Hnone|]. split; [now rewrite Hnone|].
    now apply (findIndex_from_none (getPathIndex_callback self) ROUTES 0).
  - right. split; [lia|].
    destruct (proj1 (findIndex_from_some (getPathIndex_callback self) ROUTES 0
                       (findIndex_from (getPathIndex_callback self) ROUTES 0)
                       (Z.le_refl 0) (proj1 Hrange)) eq_refl)
      as [x [Hx [Hpx _]]].
    exists x. split; [|exact Hpx].
    unfold array_get.
    destruct (Z.ltb_spec
                (findIndex_from (getPathIndex_callback self) ROUTES 0) 0);
      [lia | exact Hx].
Qed.

(** In a list whose elements have distinct keys, [findIndex] with a test
    that only elements of one key pass answers the position of the
    element of that key. *)
Lemma findIndex_unique {A K : Type} (k : A -> K) (p : A -> bool)
    (l : list A) (j : nat) (x : A) :
  NoDup (map k l) ->
  nth_error l j = Some x ->
  p x = true ->
  (forall y, p y = true -> k y = k x) ->
  findIndex p l = Z.of_nat j.
Proof.
  intros Hnodup Hx Hpx Hkey. unfold findIndex.
  apply (findIndex_from_some p l 0 (Z.of_nat j) (Z.le_refl 0)
           (Nat2Z.is_nonneg j)).
  rewrite Nat2Z.id. exists x. split; [exact Hx|]. split; [exact Hpx|].
  intros i y Hi Hy.
  destruct (p y) eqn:Hpy; [|reflexivity].
  exfalso.
  assert (Hij : i = j); [|lia].
  apply (proj1 (NoDup_nth_error (map k l)) Hnodup).
  - rewrite length_map. apply nth_error_Some. congruence.
  - rewrite !nth_error_map, Hy, Hx. simpl. f_equal. now apply Hkey.
Qed.

Lemma getPathIndex_nth_route
    (ROUTES : list route) (self : Layout) (j : nat) (r : route) :
  NoDup (map stripped_path ROUTES) ->
  nth_error ROUTES j = Some r ->
  on_path (path r) self ->
  getPathIndex ROUTES self = Z.of_nat j.
Proof.
  intros Hnodup Hr Hpath.
  apply (findIndex_unique stripped_path _ ROUTES j r Hnodup Hr).
  - apply getPathIndex_callback_iff. symmetry. exact Hpath.
  - intros y Hy. apply getPathIndex_callback_iff in Hy.
    unfold stripped_path. now rewrite Hy.
Qed.

(** In a table whose paths stay distinct once their slashes are removed,
    the page of the route at position [j], however its path is written
    with slashes, finds [j]. *)
Theorem getPathIndex_of_route_path
    (ROUTES : list route) (self : Layout) (j : nat) (r : route) :
  NoDup (map stripped_path ROUTES) ->
  nth_error ROUTES j = Some r ->
  on_path (path r) self ->
  getPathIndex ROUTES self = Z.of_nat j.
Proof.
  unfold on_path. intros Hnodup Hr Hpath. unfold getPathIndex.
  apply (findIndex_unique stripped_path (getPathIndex_callback self)
           ROUTES j r Hnodup Hr).
  - apply getPathIndex_callback_iff. now rewrite Hpath.
  - intros y Hy. apply getPathIndex_callback_iff in Hy.
    unfold stripped_path. now rewrite Hy, Hpath.
Qed.

Lemma getPathIndex_of_route_path_witness :
  getPathIndex example_ROUTES
    (mkLayout (mkProps "getting-started/") (mkState true (JStr "B")))
  = 1%Z.
Proof.
  apply (getPathIndex_of_route_path example_ROUTES
           (mkLayout (mkProps "getting-started/") (mkState true (JStr "B")))
           1%nat (mkRoute "/getting-started" "Getting Started" None)).
  - repeat constructor; simpl; intuition discriminate.
  - reflexivity.
  - reflexivity.
Defined.

(** ** The previous and next links *)

Section PrevNext.

Variable ROUTES : list route.

Lemma array_get_middle (before after : list route) (r : route) :
  array_get (before ++ r :: after) (Z.of_nat (length before)) = Some r.
Proof.
  unfold array_get.
  destruct (Z.ltb_spec (Z.of_nat (length before)) 0); [lia|].
  rewrite Nat2Z.id, nth_error_app2, Nat.sub_diag by lia. reflexivity.
Qed.

Lemma render_PrevNextLinks_no_route (self : Layout) :
  getPathIndex ROUTES self = (-1)%Z ->
  render_PrevNextLinks ROUTES self = Some (None, None).
Proof.
  unfold render_PrevNextLinks. intros ->. reflexivity.
Qed.

Lemma render_PrevNextLinks_split (self : Layout)
    (before after : list route) (r : route) :
  ROUTES = before ++ r :: after ->
  getPathIndex ROUTES self = Z.of_nat (length before) ->
  render_PrevNextLinks ROUTES self =
  Some (option_map (PageLink_to ArrowBefore) (hd_error (rev before)),
        option_map (PageLink_to ArrowAfter) (hd_error after)).
Proof.
  intros HROUTES Hidx. unfold render_PrevNextLinks. rewrite Hidx.
  assert (Hprev :
    render_PageLink ROUTES ArrowBefore
      (prevRoute (Z.of_nat (length before)))
    = Some (option_map (PageLink_to ArrowBefore) (hd_error (rev before)))).
  { unfold prevRoute, render_PageLink.
    destruct before as [|b0 before0] using rev_ind; [reflexivity|].
    rewrite length_app, rev_app_distr. simpl length. simpl hd_error.
    destruct (Z.gtb_spec (Z.of_nat (length before0 + 1)) 0); [|lia].
    destruct (Z.gtb_spec (Z.of_nat (length before0 + 1) - 1) (-1)); [|lia].
    replace (Z.of_nat (length before0 + 1) - 1)%Z
      with (Z.of_nat (length before0)) by lia.
    rewrite HROUTES, <- app_assoc. simpl app.
    rewrite array_get_middle. reflexivity. }
  assert (Hnext :
    render_PageLink ROUTES ArrowAfter
      (nextRoute ROUTES (Z.of_nat (length before)))
    = Some (option_map (PageLink_to ArrowAfter) (hd_error after))).
  { unfold nextRoute, render_PageLink.
    destruct (Z.gtb_spec (Z.of_nat (length before)) (-1)); [|lia].
    rewrite HROUTES, length_app. simpl length.
    destruct after as [|a0 after0]; simpl length.
    - destruct (Z.ltb_spec (Z.of_nat (length before))
                  (Z.of_nat (length before + 1) - 1)); [lia|].
      reflexivity.
    - destruct (Z.ltb_spec (Z.of_nat (length before))
                  (Z.of_nat (length before + S (S (length after0))) - 1));
        [|lia].
      simpl andb. cbv iota.
      destruct (Z.gtb_spec (Z.of_nat (length before) + 1) (-1)); [|lia].
      replace (Z.of_nat (length before) + 1)%Z
        with (Z.of_nat (length (before ++ [r]))).
      2:{ rewrite length_app. simpl. lia. }
      replace (before ++ r :: a0 :: after0)
        with ((before ++ [r]) ++ a0 :: after0).
      2:{ rewrite <- app_assoc. reflexivity. }
      rewrite array_get_middle. reflexivity. }
  rewrite Hprev, Hnext. reflexivity.
Qed.

(** The table cut at the position [getPathIndex] answers. *)
Lemma getPathIndex_split (self : Layout) (r : route) :
  array_get ROUTES (getPathIndex ROUTES self) = Some r ->
  exists before after,
    ROUTES = before ++ r :: after /\
    getPathIndex ROUTES self = Z.of_nat (length before).
Proof.
  intros Hr.
  destruct (getPathIndex_route ROUTES self r Hr) as [Hpos [Hnth _]].
  destruct (nth_error_split ROUTES _ Hnth) as [before [after [HR Hlen]]].
  exists before, after. split; [exact HR|]. lia.
Qed.

Lemma render_PrevNextLinks_returns (self : Layout) :
  exists links, render_PrevNextLinks ROUTES self = Some links.
Proof.
  destruct (array_get ROUTES (getPathIndex ROUTES self)) as [r|] eqn:Hr.
  - destruct (getPathIndex_split self r Hr) as [before [after [HR Hidx]]].
    eexists. apply (render_PrevNextLinks_split self before after r);
      assumption.
  - exists (None, None). apply render_PrevNextLinks_no_route.
    unfold array_get in Hr.
    destruct (Z.ltb_spec (getPathIndex ROUTES self) 0) as [Hneg|Hpos].
    + unfold getPathIndex, findIndex in *.
      destruct (findIndex_from_range (getPathIndex_callback self) ROUTES 0);
        lia.
    + apply nth_error_None in Hr.
      unfold getPathIndex, findIndex in *.
      destruct (findIndex_from_range (getPathIndex_callback self) ROUTES 0);
        lia.
Qed.

End PrevNext.

(** The previous and next links never throw.  On a path that matches no
    route both slots are empty; on the page of a route, the previous slot
    links to the route just before it in the table and the next slot to
    the route just after it, and the slot is empty at the corresponding
    end of the table. *)
Theorem render_PrevNextLinks_adjacent (ROUTES : list route) (self : Layout) :
  (exists links, render_PrevNextLinks ROUTES self = Some links)
  /\ (getPathIndex ROUTES self = (-1)%Z ->
      render_PrevNextLinks ROUTES self = Some (None, None))
  /\ (forall before r after,
        ROUTES = before ++ r :: after ->
        getPathIndex ROUTES self = Z.of_nat (length before) ->
        render_PrevNextLinks ROUTES self =
        Some (option_map (PageLink_to ArrowBefore) (hd_error (rev before)),
              option_map (PageLink_to ArrowAfter) (hd_error after))).
Proof.
  split; [|split].
  - apply render_PrevNextLinks_returns.
  - apply render_PrevNextLinks_no_route.
  - intros before r after. apply render_PrevNextLinks_split.
Qed.

Lemma render_PrevNextLinks_adjacent_witness :
  render_PrevNextLinks example_ROUTES
    (new_Layout example_ROUTES (mkProps "/getting-started/")) =
  Some (Some (mkPageLink "/" None ArrowBefore "Introduction"),
        Some (mkPageLink "/react" None ArrowAfter "Use with React"))
  /\ render_PrevNextLinks example_ROUTES
       (new_Layout example_ROUTES (mkProps "/api"))
     = Some (None, None).
Proof.
  split.
  - apply (proj2 (proj2 (render_PrevNextLinks_adjacent example_ROUTES
                           (new_Layout example_ROUTES
                              (mkProps "/getting-started/"))))
             [mkRoute "/" "Introduction" (Some [])]
             (mkRoute "/getting-started" "Getting Started" None)
             [mkRoute "/react" "Use with React" (Some ["A"; "B"; "C"])]).
    + reflexivity.
    + reflexivity.
  - apply (proj1 (proj2 (render_PrevNextLinks_adjacent example_ROUTES
                           (new_Layout example_ROUTES (mkProps "/api"))))).
    reflexivity.
Defined.

(** In a table whose paths stay distinct without their slashes, the
    previous link undoes the next link: on the page the next link leads
    to, the previous link is the link back to the route one came from. *)
Theorem next_then_prev
    (ROUTES : list route) (self self' : Layout) (r : route)
    (prev : option PageLink) (l : PageLink) :
  NoDup (map stripped_path ROUTES) ->
  array_get ROUTES (getPathIndex ROUTES self) = Some r ->
  render_PrevNextLinks ROUTES self = Some (prev, Some l) ->
  on_path (page_href l) self' ->
  exists next',
    render_PrevNextLinks ROUTES self'
    = Some (Some (PageLink_to ArrowBefore r), next').
Proof.
  intros Hnodup Hr Hlinks Hpath.
  destruct (getPathIndex_split ROUTES self r Hr) as [before [after [HR Hidx]]].
  rewrite (render_PrevNextLinks_split ROUTES self before after r HR Hidx)
    in Hlinks.
  injection Hlinks as _ Hnext.
  destruct after as [|a after']; [discriminate|]. injection Hnext as <-.
  assert (HR' : ROUTES = (before ++ [r]) ++ a :: after').
  { rewrite <- app_assoc. exact HR. }
  assert (Hidx' : getPathIndex ROUTES self'
                  = Z.of_nat (length (before ++ [r]))).
  { apply (getPathIndex_nth_route ROUTES self' _ a Hnodup); [|exact Hpath].
    rewrite HR' at 1.
    rewrite nth_error_app2, Nat.sub_diag by lia. reflexivity. }
  rewrite (render_PrevNextLinks_split ROUTES self' _ _ a HR' Hidx').
  rewrite rev_app_distr. simpl. eexists. reflexivity.
Qed.

Lemma next_then_prev_witness :
  exists next',
    render_PrevNextLinks example_ROUTES
      (new_Layout example_ROUTES (mkProps "/react/"))
    = Some (Some (PageLink_to ArrowBefore
                    (mkRoute "/getting-started" "Getting Started" None)),
            next').
Proof.
  apply (next_then_prev example_ROUTES
           (new_Layout example_ROUTES (mkProps "/getting-started"))
           (new_Layout example_ROUTES (mkProps "/react/"))
           (mkRoute "/getting-started" "Getting Started" None)
           (Some (mkPageLink "/" None ArrowBefore "Introduction"))
           (mkPageLink "/react" None ArrowAfter "Use with React")).
  - repeat constructor; simpl; intuition discriminate.
  - reflexivity.
  - reflexivity.
  - reflexivity.
Defined.

(** And the next link undoes the previous link: on the page the previous
    link leads to, the next link is the link to the route one came
    from. *)
Theorem prev_then_next
    (ROUTES : list route) (self self' : Layout) (r : route)
    (l : PageLink) (next : option PageLink) :
  NoDup (map stripped_path ROUTES) ->
  array_get ROUTES (getPathIndex ROUTES self) = Some r ->
  render_PrevNextLinks ROUTES self = Some (Some l, next) ->
  on_path (page_href l) self' ->
  exists prev',
    render_PrevNextLinks ROUTES self'
    = Some (prev', Some (PageLink_to ArrowAfter r)).
Proof.
  intros Hnodup Hr Hlinks Hpath.
  destruct (getPathIndex_split ROUTES self r Hr) as [before [after [HR Hidx]]].
  rewrite (render_PrevNextLinks_split ROUTES self before after r HR Hidx)
    in Hlinks.
  injection Hlinks as Hprev _.
  destruct before as [|b before' _] using rev_ind; [discriminate|].
  rewrite rev_app_distr in Hprev. injection Hprev as <-.
  assert (HR' : ROUTES = before' ++ b :: r :: after).
  { rewrite <- app_assoc in HR. exact HR. }
  assert (Hidx' : getPathIndex ROUTES self' = Z.of_nat (length before')).
  { apply (getPathIndex_nth_route ROUTES self' _ b Hnodup); [|exact Hpath].
    rewrite HR' at 1.
    rewrite nth_error_app2, Nat.sub_diag by lia. reflexivity. }
  rewrite (render_PrevNextLinks_split ROUTES self' _ _ b HR' Hidx').
  simpl. eexists. reflexivity.
Qed.

Lemma prev_then_next_witness :
  exists prev',
    render_PrevNextLinks example_ROUTES
      (new_Layout example_ROUTES (mkProps "/"))
    = Some (prev',
            Some (PageLink_to ArrowAfter
                    (mkRoute "/getting-started" "Getting Started" None))).
Proof.
  apply (prev_then_next example_ROUTES
           (new_Layout example_ROUTES (mkProps "/getting-started"))
           (new_Layout example_ROUTES (mkProps "/"))
           (mkRoute "/getting-started" "Getting Started" None)
           (mkPageLink "/" None ArrowBefore "Introduction")
           (Some (mkPageLink "/react" None ArrowAfter "Use with React"))).
  - repeat constructor; simpl; intuition discriminate.
  - reflexivity.
  - reflexivity.
  - reflexivity.
Defined.

(** ** Rendering the sidebar *)

Lemma map_index_from_None {A B : Type} (f : A -> Z -> option B)
    (arr : list A) :
  forall i0 j x,
    nth_error arr j = Some x ->
    f x (i0 + Z.of_nat j)%Z = None ->
    map_index_from f arr i0 = None.
Proof.
  induction arr as [|y rest IH]; intros i0 j x Hx Hf.
  - destruct j; discriminate.
  - simpl. destruct j as [|j]; simpl in Hx.
    + injection Hx as ->. rewrite Z.add_0_r in Hf. now rewrite Hf.
    + destruct (f y i0); [|reflexivity].
      rewrite (IH (i0 + 1)%Z j x Hx); [reflexivity|].
      replace (i0 + 1 + Z.of_nat j)%Z with (i0 + Z.of_nat (S j))%Z by lia.
      exact Hf.
Qed.

Lemma map_index_from_inv {A B : Type} (f : A -> Z -> option B)
    (arr : list A) :
  forall i0 ys,
    map_index_from f arr i0 = Some ys ->
    forall j y, nth_error ys j = Some y ->
      exists x, nth_error arr j = Some x
                /\ f x (i0 + Z.of_nat j)%Z = Some y.
Proof.
  induction arr as [|x rest IH]; intros i0 ys Hys j y Hy; simpl in Hys.
  - injection Hys as <-. destruct j; discriminate.
  - destruct (f x i0) as [y0|] eqn:Hx; [|discriminate].
    destruct (map_index_from f rest (i0 + 1)) as [ys'|] eqn:Hrest;
      [|discriminate].
    injection Hys as <-. destruct j as [|j]; simpl in Hy.
    + injection Hy as <-. exists x. rewrite Z.add_0_r. auto.
    + destruct (IH _ _ Hrest j y Hy) as [x' [Hx' Hf]]. exists x'.
      split; [exact Hx'|].
      replace (i0 + Z.of_nat (S j))%Z with (i0 + 1 + Z.of_nat j)%Z by lia.
      exact Hf.
Qed.

Lemma filter_none {A : Type} (b : A -> bool) (l : list A) :
  (forall y, In y l -> b y = false) -> filter b l = [].
Proof.
  induction l as [|x l IH]; intros Hall; simpl; [reflexivity|].
  rewrite (Hall x (or_introl eq_refl)). apply IH.
  intros y Hy. apply Hall. now right.
Qed.

Lemma filter_at_most_one {A : Type} (b : A -> bool) (l : list A) :
  (forall j k x y,
      nth_error l j = Some x -> nth_error l k = Some y ->
      b x = true -> b y = true -> j = k) ->
  (length (filter b l) <= 1)%nat.
Proof.
  induction l as [|x l IH]; intros Huniq; simpl; [lia|].
  destruct (b x) eqn:Hx.
  - rewrite filter_none; [simpl; lia|].
    intros y Hy. apply In_nth_error in Hy. destruct Hy as [k Hk].
    destruct (b y) eqn:Hby; [|reflexivity].
    specialize (Huniq 0%nat (S k) x y eq_refl Hk Hx Hby). discriminate.
  - apply IH. intros j k u v Hu Hv Hbu Hbv.
    specialize (Huniq (S j) (S k) u v Hu Hv Hbu Hbv). lia.
Qed.

Section SidebarRendering.

Variable ROUTES : list route.
Variable cleanAnchor : string -> string.

(** The sidebar throws exactly when [pathIndex] is the position of a
    route without an anchor list. *)
Lemma Navigation_None_iff (isVisible : bool) (pathIndex : Z) (v : jsval) :
  Navigation ROUTES cleanAnchor isVisible pathIndex v = None <->
  exists r, array_get ROUTES pathIndex = Some r /\ anchors r = None.
Proof.
  split.
  - intros Hnone.
    destruct (array_get ROUTES pathIndex) as [r|] eqn:Hr.
    + destruct (anchors r) as [arr|] eqn:Harr; [|now exists r].
      destruct (Navigation_fragments ROUTES cleanAnchor isVisible pathIndex
                  v arr) as [frags [Hsome _]].
      { intros r' Hr'. rewrite Hr in Hr'. now injection Hr' as <-. }
      congruence.
    + destruct (Navigation_fragments ROUTES cleanAnchor isVisible pathIndex
                  v []) as [frags [Hsome _]].
      { intros r' Hr'. congruence. }
      congruence.
  - intros [r [Hr Hnone]]. unfold Navigation.
    assert (Hpos : (0 <= pathIndex)%Z /\
                   nth_error ROUTES (Z.to_nat pathIndex) = Some r).
    { unfold array_get in Hr.
      destruct (Z.ltb_spec pathIndex 0); [discriminate | split; [lia|exact Hr]]. }
    destruct Hpos as [Hpos Hnth].
    rewrite (map_index_from_None
               (Navigation_route ROUTES cleanAnchor pathIndex v) ROUTES 0
               (Z.to_nat pathIndex) r Hnth); [reflexivity|].
    unfold Navigation_route. simpl.
    rewrite Z2Nat.id by exact Hpos. rewrite Z.eqb_refl, Hr, Hnone.
    reflexivity.
Qed.

(** The fragment of the current route in the rendered sidebar. *)
Lemma render_Navigation_current (self : Layout) (r : route)
    (arr : list string) :
  array_get ROUTES (getPathIndex ROUTES self) = Some r ->
  anchors r = Some arr ->
  exists tree f,
    render_Navigation ROUTES cleanAnchor self = Some tree /\
    nth_error (list_children tree) (Z.to_nat (getPathIndex ROUTES self))
      = Some f /\
    anchor_items f =
      Some (map (Navigation_anchor cleanAnchor (activeAnchor (state self)))
              arr).
Proof.
  intros Hr Harr.
  destruct (getPathIndex_route ROUTES self r Hr) as [Hpos [Hnth _]].
  destruct (Navigation_fragments ROUTES cleanAnchor
              (sidebarVisible (state self)) (getPathIndex ROUTES self)
              (activeAnchor (state self)) arr)
    as [frags [Hrender [Hlen Hfrags]]].
  { intros r' Hr'. rewrite Hr in Hr'. injection Hr' as <-. exact Harr. }
  unfold render_Navigation. rewrite Hrender. cbn [list_children].
  destruct (nth_error frags (Z.to_nat (getPathIndex ROUTES self)))
    as [f|] eqn:Hf.
  2:{ exfalso. apply nth_error_None in Hf. rewrite Hlen in Hf.
      assert (Hlt : (Z.to_nat (getPathIndex ROUTES self) < length ROUTES)%nat)
        by (apply nth_error_Some; congruence).
      lia. }
  exists (mkSidebarList (sidebarVisible (state self)) frags), f.
  cbn [list_children].
  destruct (Hfrags _ f Hf) as [r' [_ [_ [_ [_ [_ Hitems]]]]]].
  rewrite Z2Nat.id, Z.eqb_refl in Hitems by exact Hpos.
  auto.
Qed.

(** The route items of a sidebar that renders. *)
Lemma Navigation_route_items (isVisible : bool) (pathIndex : Z) (v : jsval)
    (tree : SidebarList) :
  Navigation ROUTES cleanAnchor isVisible pathIndex v = Some tree ->
  forall j g, nth_error (list_children tree) j = Some g ->
    exists r,
      nth_error ROUTES j = Some r /\
      route_item g =
        mkSidebarItem false (pathIndex =? Z.of_nat j)%Z (Some (path r))
          (mkStyledLink None (getATarget (path r))
             (pathIndex =? Z.of_nat j)%Z (text r)).
Proof.
  unfold Navigation. intros Hrender.
  destruct (map_index_from (Navigation_route ROUTES cleanAnchor pathIndex v)
              ROUTES 0) as [frags|] eqn:Hfrags; [|discriminate].
  injection Hrender as <-. cbn [list_children]. intros j g Hg.
  destruct (map_index_from_inv _ _ _ _ Hfrags j g Hg) as [r [Hr Hroute]].
  exists r. split; [exact Hr|].
  unfold Navigation_route in Hroute. simpl in Hroute.
  destruct (pathIndex =? Z.of_nat j)%Z.
  - destruct (array_get ROUTES pathIndex) as [r0|]; [|discriminate].
    destruct (anchors r0); [|discriminate].
    now injection Hroute as <-.
  - now injection Hroute as <-.
Qed.

End SidebarRendering.

(** [render] throws exactly on the page of a route that has no anchor
    list: the sidebar reads [anchors.map] of that route, and nothing else
    in [render] can throw.  When it returns, the burger and the sidebar show
    the same [sidebarVisible]. *)
Theorem render_throws_iff
    (ROUTES : list route) (cleanAnchor : string -> string) (self : Layout) :
  (render ROUTES cleanAnchor self = None <->
   exists r,
     array_get ROUTES (getPathIndex ROUTES self) = Some r /\
     anchors r = None)
  /\ (forall tree,
        render ROUTES cleanAnchor self = Some tree ->
        Burger_isOpen tree = sidebarVisible (state self) /\
        list_isVisible (sidebar tree) = sidebarVisible (state self)).
Proof.
  unfold render.
  destruct (render_PrevNextLinks_returns ROUTES self) as [[prev next] ->].
  pose proof (Navigation_None_iff ROUTES cleanAnchor
                (sidebarVisible (state self)) (getPathIndex ROUTES self)
                (activeAnchor (state self))) as Hnav.
  fold (render_Navigation ROUTES cleanAnchor self) in Hnav.
  split.
  - rewrite <- Hnav.
    destruct (render_Navigation ROUTES cleanAnchor self); split;
      congruence.
  - intros tree.
    destruct (render_Navigation ROUTES cleanAnchor self) as [nav|] eqn:Hrender;
      [|discriminate].
    intros [= <-]. split; [reflexivity|]. simpl.
    unfold render_Navigation, Navigation in Hrender.
    destruct (map_index_from _ ROUTES 0); [|discriminate].
    now injection Hrender as <-.
Qed.

(** Whatever [pathIndex] it is given, a sidebar that renders has one
    fragment per route, in the order of the table, keyed by the route's
    path and showing its text; the route marked active and the route that
    carries anchor sub-items are the one at [pathIndex], so at most one
    route is marked. *)
Theorem Navigation_one_fragment_per_route
    (ROUTES : list route) (cleanAnchor : string -> string)
    (isVisible : bool) (pathIndex : Z) (v : jsval) (tree : SidebarList) :
  Navigation ROUTES cleanAnchor isVisible pathIndex v = Some tree ->
  map key (list_children tree) = map path ROUTES
  /\ map (fun f => link_children (item_link (route_item f)))
       (list_children tree) = map text ROUTES
  /\ map (fun f => (Link_href (route_item f),
                    target (item_link (route_item f))))
       (list_children tree)
     = map (fun r => (Some (path r), getATarget (path r))) ROUTES
  /\ (forall j g, nth_error (list_children tree) j = Some g ->
        (item_active (route_item g) = true <-> pathIndex = Z.of_nat j)
        /\ (anchor_items g <> None <-> pathIndex = Z.of_nat j))
  /\ (length (active_routes tree) <= 1)%nat.
Proof.
  intros Hrender.
  pose proof (Navigation_route_items ROUTES cleanAnchor isVisible pathIndex
                v tree Hrender) as Hlinks.
  assert (Harr : exists arr,
             forall r, array_get ROUTES pathIndex = Some r ->
                       anchors r = Some arr).
  { destruct (array_get ROUTES pathIndex) as [r|] eqn:Hr.
    - destruct (anchors r) as [arr|] eqn:Ha.
      + exists arr. intros r' [= <-]. exact Ha.
      + exfalso.
        assert (Hnone : Navigation ROUTES cleanAnchor isVisible pathIndex v
                        = None)
          by (apply Navigation_None_iff; now exists r).
        congruence.
    - exists []. discriminate. }
  destruct Harr as [arr Harr].
  destruct (Navigation_fragments ROUTES cleanAnchor isVisible pathIndex v arr
              Harr) as [frags [Hsome [Hlen Hfrags]]].
  rewrite Hsome in Hrender. injection Hrender as <-.
  cbn [list_children] in *.
  assert (Hfields : forall j g, nth_error frags j = Some g ->
            (item_active (route_item g) = true <-> pathIndex = Z.of_nat j)
            /\ (anchor_items g <> None <-> pathIndex = Z.of_nat j)).
  { intros j g Hg.
    destruct (Hfrags j g Hg) as [r [_ [_ [_ [Hact [_ Hitems]]]]]].
    rewrite Hact, Hitems.
    destruct (Z.eqb_spec pathIndex (Z.of_nat j)); split; split;
      intros; congruence. }
  split; [|split; [|split; [|split]]].
  - apply nth_error_ext. intros n. rewrite !nth_error_map.
    destruct (nth_error frags n) as [g|] eqn:Hg.
    + destruct (Hfrags n g Hg) as [r [Hr [Hkey _]]].
      rewrite Hr. simpl. now rewrite Hkey.
    + apply nth_error_None in Hg. rewrite Hlen in Hg.
      apply nth_error_None in Hg. now rewrite Hg.
  - apply nth_error_ext. intros n. rewrite !nth_error_map.
    destruct (nth_error frags n) as [g|] eqn:Hg.
    + destruct (Hfrags n g Hg) as [r [Hr [_ [Htext _]]]].
      rewrite Hr. simpl. now rewrite Htext.
    + apply nth_error_None in Hg. rewrite Hlen in Hg.
      apply nth_error_None in Hg. now rewrite Hg.
  - apply nth_error_ext. intros n. rewrite !nth_error_map.
    destruct (nth_error frags n) as [g|] eqn:Hg.
    + destruct (Hlinks n g Hg) as [r [Hr Hitem]].
      rewrite Hr. simpl. now rewrite Hitem.
    + apply nth_error_None in Hg. rewrite Hlen in Hg.
      apply nth_error_None in Hg. now rewrite Hg.
  - exact Hfields.
  - unfold active_routes. cbn [list_children].
    apply filter_at_most_one. intros j k x y Hx Hy Hbx Hby.
    apply (Hfields j x Hx) in Hbx. apply (Hfields k y Hy) in Hby. lia.
Qed.

Lemma Navigation_one_fragment_per_route_witness :
  map key
    [mkFragment "/"
       (mkSidebarItem false true (Some "/")
          (mkStyledLink None None true "Introduction")) (Some []);
     mkFragment "/getting-started"
       (mkSidebarItem false false (Some "/getting-started")
          (mkStyledLink None None false "Getting Started")) None;
     mkFragment "/react"
       (mkSidebarItem false false (Some "/react")
          (mkStyledLink None None false "Use with React")) None]
  = map path example_ROUTES.
Proof.
  apply (Navigation_one_fragment_per_route example_ROUTES cleanAnchor true 0
           JUndefined
           (mkSidebarList true
              [mkFragment "/"
                 (mkSidebarItem false true (Some "/")
                    (mkStyledLink None None true "Introduction")) (Some []);
               mkFragment "/getting-started"
                 (mkSidebarItem false false (Some "/getting-started")
                    (mkStyledLink None None false "Getting Started")) None;
               mkFragment "/react"
                 (mkSidebarItem false false (Some "/react")
                    (mkStyledLink None None false "Use with React")) None])).
  reflexivity.
Defined.

(** ** What a scroll recomputation asks of the document *)

Section ScanQueries.

Variable cleanAnchor : string -> string.

Lemma element_of_id (els : list element) (a : string) (el : element) :
  element_of cleanAnchor els a = Some el -> id el = cleanAnchor a.
Proof.
  unfold element_of. intros H. apply find_some in H.
  now apply String.eqb_eq.
Qed.

Lemma scan_queries_present (els : list element) (arr : list string) :
  (forall a, In a arr -> element_of cleanAnchor els a <> None) ->
  scan_queries cleanAnchor els arr = flat_map (anchor_queries cleanAnchor) arr.
Proof.
  induction arr as [|a rest IH]; intros Hall; simpl; [reflexivity|].
  destruct (element_of cleanAnchor els a) as [el|] eqn:Hel.
  - rewrite (element_of_id els a el Hel), IH; [reflexivity|].
    intros b Hb. apply Hall. now right.
  - exfalso. apply (Hall a); [now left | exact Hel].
Qed.

Lemma scan_queries_missing (els : list element)
    (before after : list string) (a : string) :
  (forall b, In b before -> element_of cleanAnchor els b <> None) ->
  element_of cleanAnchor els a = None ->
  scan_queries cleanAnchor els (before ++ a :: after) =
  flat_map (anchor_queries cleanAnchor) before
    ++ [GetElementById (cleanAnchor a)].
Proof.
  induction before as [|b before IH]; intros Hall Ha; simpl.
  - now rewrite Ha.
  - destruct (element_of cleanAnchor els b) as [el|] eqn:Hel.
    + rewrite (element_of_id els b el Hel), IH; [reflexivity| |exact Ha].
      intros c Hc. apply Hall. now right.
    + exfalso. apply (Hall b); [now left | exact Hel].
Qed.

Lemma scan_Some_present (els : list element) (arr : list string) :
  forall v v',
    scan cleanAnchor els arr v = Some v' ->
    forall a, In a arr -> element_of cleanAnchor els a <> None.
Proof.
  induction arr as [|b rest IH]; intros v v' Hscan a Hin; [destruct Hin|].
  simpl in Hscan.
  destruct (element_of cleanAnchor els b) as [el|] eqn:Hel; [|discriminate].
  destruct Hin as [<-|Hin]; [congruence|].
  apply (IH _ _ Hscan a Hin).
Qed.

Lemma looked_up_anchor_queries (arr : list string) :
  looked_up (flat_map (anchor_queries cleanAnchor) arr) = map cleanAnchor arr.
Proof.
  induction arr as [|a rest IH]; simpl; [reflexivity|]. now rewrite IH.
Qed.

End ScanQueries.

(** [onScroll] touches nothing but the active anchor and the log: the
    props, the [sidebarVisible] flag, the elements and the listeners come
    out as they went in, and the queries already logged are kept. *)
Theorem onScroll_frame
    (ROUTES : list route) (cleanAnchor : string -> string) (w : world) :
  props (this (snd (onScroll ROUTES cleanAnchor w))) = props (this w)
  /\ sidebarVisible (state (this (snd (onScroll ROUTES cleanAnchor w))))
     = sidebarVisible (state (this w))
  /\ elements (snd (onScroll ROUTES cleanAnchor w)) = elements w
  /\ scrollListeners (snd (onScroll ROUTES cleanAnchor w)) = scrollListeners w
  /\ exists qs,
       queries (snd (onScroll ROUTES cleanAnchor w)) = queries w ++ qs.
Proof.
  rewrite onScroll_unfold.
  destruct (array_get ROUTES (getPathIndex ROUTES (this w))) as [r|].
  2:{ repeat split. exists []. now rewrite app_nil_r. }
  destruct (anchors r) as [arr|].
  2:{ repeat split. exists []. now rewrite app_nil_r. }
  destruct (scan cleanAnchor (elements w) arr (array_first arr));
    repeat split; eexists; reflexivity.
Qed.

(** With every element present, one run of [onScroll] looks each anchor
    up once and measures it once, in the order of the list: twice as many
    queries as the route has anchors. *)
Theorem onScroll_queries_each_anchor_once
    (ROUTES : list route) (cleanAnchor : string -> string) (w : world)
    (r : route) (arr : list string) :
  array_get ROUTES (getPathIndex ROUTES (this w)) = Some r ->
  anchors r = Some arr ->
  (forall a, In a arr -> element_of cleanAnchor (elements w) a <> None) ->
  queries (snd (onScroll ROUTES cleanAnchor w))
  = queries w ++ flat_map (anchor_queries cleanAnchor) arr
  /\ length (queries (snd (onScroll ROUTES cleanAnchor w)))
     = (length (queries w) + 2 * length arr)%nat.
Proof.
  intros Hr Harr Hall.
  assert (Hq : queries (snd (onScroll ROUTES cleanAnchor w))
               = queries w ++ flat_map (anchor_queries cleanAnchor) arr).
  { rewrite onScroll_unfold, Hr, Harr.
    rewrite <- (scan_queries_present cleanAnchor (elements w) arr Hall).
    destruct (scan cleanAnchor (elements w) arr (array_first arr));
      reflexivity. }
  split; [exact Hq|]. rewrite Hq, length_app. f_equal.
  clear. induction arr as [|a rest IH]; simpl; lia.
Qed.

Lemma onScroll_queries_each_anchor_once_witness :
  queries (snd (onScroll example_ROUTES cleanAnchor
                  (example_page A_B_passed)))
  = [] ++ flat_map (anchor_queries cleanAnchor) ["A"; "B"; "C"]
  /\ length (queries (snd (onScroll example_ROUTES cleanAnchor
                             (example_page A_B_passed))))
     = (0 + 2 * 3)%nat.
Proof.
  apply (onScroll_queries_each_anchor_once example_ROUTES cleanAnchor
           (example_page A_B_passed)
           (mkRoute "/react" "Use with React" (Some ["A"; "B"; "C"]))
           ["A"; "B"; "C"]).
  - reflexivity.
  - reflexivity.
  - intros a [<-|[<-|[<-|[]]]]; vm_compute; discriminate.
Defined.

(** [onScroll] stops at the first anchor whose element is missing: the
    anchors before it are looked up and measured, the missing one is
    looked up, the exception is thrown, and no anchor after it is
    queried. *)
Theorem onScroll_stops_at_first_missing
    (ROUTES : list route) (cleanAnchor : string -> string) (w : world)
    (r : route) (before after : list string) (a : string) :
  array_get ROUTES (getPathIndex ROUTES (this w)) = Some r ->
  anchors r = Some (before ++ a :: after) ->
  (forall b, In b before -> element_of cleanAnchor (elements w) b <> None) ->
  element_of cleanAnchor (elements w) a = None ->
  fst (onScroll ROUTES cleanAnchor w) = Throw_TypeError
  /\ queries (snd (onScroll ROUTES cleanAnchor w))
     = queries w ++ flat_map (anchor_queries cleanAnchor) before
         ++ [GetElementById (cleanAnchor a)].
Proof.
  intros Hr Harr Hbefore Ha.
  rewrite onScroll_unfold, Hr, Harr.
  rewrite (scan_missing cleanAnchor (elements w) (before ++ a :: after)).
  2:{ exists a. split; [|exact Ha]. apply in_or_app. right. now left. }
  unfold logged. cbn [fst snd queries].
  rewrite (scan_queries_missing cleanAnchor (elements w) before after a
             Hbefore Ha).
  split; reflexivity.
Qed.

Lemma onScroll_stops_at_first_missing_witness :
  fst (onScroll example_ROUTES cleanAnchor (example_page B_missing))
  = Throw_TypeError
  /\ queries (snd (onScroll example_ROUTES cleanAnchor
                     (example_page B_missing)))
     = [] ++ flat_map (anchor_queries cleanAnchor) ["A"]
         ++ [GetElementById (cleanAnchor "B")].
Proof.
  apply (onScroll_stops_at_first_missing example_ROUTES cleanAnchor
           (example_page B_missing)
           (mkRoute "/react" "Use with React" (Some ["A"; "B"; "C"]))
           ["A"] ["C"] "B").
  - reflexivity.
  - reflexivity.
  - intros b [<-|[]]. vm_compute. discriminate.
  - reflexivity.
Defined.

(** Running [onScroll] a second time in the same document changes
    nothing in the component: the state after two runs is the state after
    one, whether the runs return or throw. *)
Theorem onScroll_twice
    (ROUTES : list route) (cleanAnchor : string -> string) (w : world) :
  this (snd (onScroll ROUTES cleanAnchor
               (snd (onScroll ROUTES cleanAnchor w))))
  = this (snd (onScroll ROUTES cleanAnchor w))
  /\ fst (onScroll ROUTES cleanAnchor (snd (onScroll ROUTES cleanAnchor w)))
     = fst (onScroll ROUTES cleanAnchor w).
Proof.
  rewrite (onScroll_unfold ROUTES cleanAnchor w).
  destruct (array_get ROUTES (getPathIndex ROUTES (this w))) as [r|] eqn:Hr.
  2:{ cbn [snd fst]. rewrite onScroll_unfold, Hr. split; reflexivity. }
  destruct (anchors r) as [arr|] eqn:Harr.
  2:{ cbn [snd fst]. rewrite onScroll_unfold, Hr, Harr. split; reflexivity. }
  destruct (scan cleanAnchor (elements w) arr (array_first arr)) as [v|]
    eqn:Hscan; cbn [snd fst]; rewrite onScroll_unfold; cbn [this elements].
  - assert (Hidx : forall st,
              getPathIndex ROUTES (mkLayout (props (this w)) st)
              = getPathIndex ROUTES (this w))
      by (intros st; apply getPathIndex_props; reflexivity).
    rewrite Hidx, Hr, Harr, Hscan. split; reflexivity.
  - unfold logged. cbn [this elements]. rewrite Hr, Harr, Hscan.
    split; reflexivity.
Qed.

(** The anchor links of the sidebar and the lookups of [onScroll] agree:
    when [onScroll] returns, the sidebar of the same component renders,
    and the [href]s of its anchor sub-items are, in order, [#] followed by
    the ids that [onScroll] asked [getElementById] for. *)
Theorem anchor_hrefs_are_the_ids_looked_up
    (ROUTES : list route) (cleanAnchor : string -> string) (w w' : world) :
  onScroll ROUTES cleanAnchor w = (Return tt, w') ->
  exists tree f items qs,
    render_Navigation ROUTES cleanAnchor (this w) = Some tree /\
    nth_error (list_children tree)
      (Z.to_nat (getPathIndex ROUTES (this w))) = Some f /\
    anchor_items f = Some items /\
    queries w' = queries w ++ qs /\
    map (fun it => href (item_link it)) items
    = map (fun i => Some (String.append "#" i)) (looked_up qs).
Proof.
  rewrite onScroll_unfold.
  destruct (array_get ROUTES (getPathIndex ROUTES (this w))) as [r|] eqn:Hr;
    [|discriminate].
  destruct (anchors r) as [arr|] eqn:Harr; [|discriminate].
  destruct (scan cleanAnchor (elements w) arr (array_first arr)) as [v|]
    eqn:Hscan; [|discriminate].
  intros [= <-].
  destruct (render_Navigation_current ROUTES cleanAnchor (this w) r arr
              Hr Harr) as [tree [f [Hrender [Hf Hitems]]]].
  exists tree, f,
    (map (Navigation_anchor cleanAnchor (activeAnchor (state (this w)))) arr),
    (scan_queries cleanAnchor (elements w) arr).
  split; [exact Hrender|]. split; [exact Hf|]. split; [exact Hitems|].
  split; [reflexivity|].
  rewrite (scan_queries_present cleanAnchor (elements w) arr
             (scan_Some_present cleanAnchor (elements w) arr _ _ Hscan)).
  rewrite looked_up_anchor_queries, !map_map. reflexivity.
Qed.

Lemma anchor_hrefs_are_the_ids_looked_up_witness :
  exists tree f items qs,
    render_Navigation example_ROUTES cleanAnchor
      (this (example_page A_B_passed)) = Some tree /\
    nth_error (list_children tree) 2 = Some f /\
    anchor_items f = Some items /\
    queries (snd (onScroll example_ROUTES cleanAnchor
                    (example_page A_B_passed))) = [] ++ qs /\
    map (fun it => href (item_link it)) items
    = map (fun i => Some (String.append "#" i)) (looked_up qs).
Proof.
  apply (anchor_hrefs_are_the_ids_looked_up example_ROUTES cleanAnchor
           (example_page A_B_passed)
           (snd (onScroll example_ROUTES cleanAnchor
                   (example_page A_B_passed)))).
  reflexivity.
Defined.

(** ** Scrolling down *)

Section ScrollingDown.

Variable cleanAnchor : string -> string.

(** The loop over a non-empty list with every element present, as a cut
    of the list at the anchor it answers. *)
Lemma scan_split (els : list element) (first : string) (rest : list string) :
  (forall a, In a (first :: rest) -> element_of cleanAnchor els a <> None) ->
  exists before a after,
    first :: rest = before ++ a :: after /\
    scan cleanAnchor els (first :: rest) (array_first (first :: rest))
      = Some (JStr a) /\
    Forall (fun b => ~ scrolled_past cleanAnchor els b) after /\
    (before = [] \/ scrolled_past cleanAnchor els a).
Proof.
  intros Hall.
  destruct (scan_all_present cleanAnchor els (first :: rest)
              (array_first (first :: rest)) Hall)
    as [v [Hscan [[before [a [after [Harr [-> [Ha Hafter]]]]]]|[-> Hnone]]]].
  - exists before, a, after. auto.
  - exists [], first, rest. split; [reflexivity|]. split; [exact Hscan|].
    split; [|now left]. now inversion Hnone.
Qed.

Lemma scrolled_past_lower (els1 els2 : list element) (a : string)
    (e1 e2 : element) :
  element_of cleanAnchor els1 a = Some e1 ->
  element_of cleanAnchor els2 a = Some e2 ->
  (top e2 <= top e1)%Q ->
  scrolled_past cleanAnchor els1 a -> scrolled_past cleanAnchor els2 a.
Proof.
  intros H1 H2 Hle [el [Hel Hlt]]. rewrite H1 in Hel. injection Hel as <-.
  exists e2. split; [exact H2|]. unfold Qminus in *.
  apply Qle_lt_trans with (top e1 + - 26)%Q; [|exact Hlt].
  apply Qplus_le_compat; [exact Hle | apply Qle_refl].
Qed.

Lemma cut_positions (arr before1 after1 before2 after2 : list string)
    (a1 a2 : string) :
  arr = before1 ++ a1 :: after1 ->
  arr = before2 ++ a2 :: after2 ->
  (length before2 < length before1)%nat ->
  In a1 after2.
Proof.
  intros H1 H2 Hlt.
  assert (Hnth : nth_error arr (length before1) = Some a1).
  { rewrite H1, nth_error_app2, Nat.sub_diag by lia. reflexivity. }
  rewrite H2, nth_error_app2 in Hnth by lia.
  destruct (length before1 - length before2)%nat as [|n] eqn:Hn; [lia|].
  simpl in Hnth. now apply nth_error_In in Hnth.
Qed.

End ScrollingDown.

(** Scrolling down never moves the highlight up: when the top offset of
    every anchor's element is no greater in the second document than in
    the first, the anchor [onScroll] makes active in the second stands at
    the same place of the list or further down. *)
Theorem scrolling_down_never_moves_back
    (ROUTES : list route) (cleanAnchor : string -> string) (w1 w2 : world)
    (r : route) (first : string) (rest : list string) :
  array_get ROUTES (getPathIndex ROUTES (this w1)) = Some r ->
  props (this w2) = props (this w1) ->
  anchors r = Some (first :: rest) ->
  (forall a, In a (first :: rest) ->
     exists e1 e2,
       element_of cleanAnchor (elements w1) a = Some e1 /\
       element_of cleanAnchor (elements w2) a = Some e2 /\
       (top e2 <= top e1)%Q) ->
  exists before1 a1 after1 before2 a2 after2,
    first :: rest = before1 ++ a1 :: after1 /\
    first :: rest = before2 ++ a2 :: after2 /\
    activeAnchor (state (this (snd (onScroll ROUTES cleanAnchor w1))))
      = JStr a1 /\
    activeAnchor (state (this (snd (onScroll ROUTES cleanAnchor w2))))
      = JStr a2 /\
    (length before1 <= length before2)%nat.
Proof.
  intros Hr Hprops Harr Hboth.
  assert (Hr2 : array_get ROUTES (getPathIndex ROUTES (this w2)) = Some r).
  { now rewrite (getPathIndex_props ROUTES (this w2) (this w1) Hprops). }
  destruct (scan_split cleanAnchor (elements w1) first rest)
    as [before1 [a1 [after1 [Hcut1 [Hscan1 [_ Hpast1]]]]]].
  { intros a Ha. destruct (Hboth a Ha) as [e1 [_ [-> _]]]. discriminate. }
  destruct (scan_split cleanAnchor (elements w2) first rest)
    as [before2 [a2 [after2 [Hcut2 [Hscan2 [Hafter2 _]]]]]].
  { intros a Ha. destruct (Hboth a Ha) as [_ [e2 [_ [-> _]]]]. discriminate. }
  exists before1, a1, after1, before2, a2, after2.
  split; [exact Hcut1|]. split; [exact Hcut2|].
  split; [rewrite onScroll_unfold, Hr, Harr, Hscan1; reflexivity|].
  split; [rewrite onScroll_unfold, Hr2, Harr, Hscan2; reflexivity|].
  destruct Hpast1 as [->|Hpast1]; [simpl; lia|].
  destruct (Nat.le_gt_cases (length before1) (length before2)) as [|Hlt];
    [assumption|].
  exfalso.
  pose proof (cut_positions _ _ _ _ _ _ _ Hcut1 Hcut2 Hlt) as Hin.
  assert (Ha1 : In a1 (first :: rest)).
  { rewrite Hcut1. apply in_or_app. right. now left. }
  destruct (Hboth a1 Ha1) as [e1 [e2 [He1 [He2 Hle]]]].
  apply (proj1 (Forall_forall _ _) Hafter2 a1 Hin).
  exact (scrolled_past_lower cleanAnchor _ _ a1 e1 e2 He1 He2 Hle Hpast1).
Qed.

Lemma scrolling_down_never_moves_back_witness :
  exists before1 a1 after1 before2 a2 after2,
    ["A"; "B"; "C"] = before1 ++ a1 :: after1 /\
    ["A"; "B"; "C"] = before2 ++ a2 :: after2 /\
    activeAnchor
      (state (this (snd (onScroll example_ROUTES cleanAnchor
                           (example_page none_passed))))) = JStr a1 /\
    activeAnchor
      (state (this (snd (onScroll example_ROUTES cleanAnchor
                           (example_page A_B_passed))))) = JStr a2 /\
    (length before1 <= length before2)%nat.
Proof.
  apply (scrolling_down_never_moves_back example_ROUTES cleanAnchor
           (example_page none_passed) (example_page A_B_passed)
           (mkRoute "/react" "Use with React" (Some ["A"; "B"; "C"]))
           "A" ["B"; "C"]).
  - reflexivity.
  - reflexivity.
  - reflexivity.
  - intros a [<-|[<-|[<-|[]]]]; eexists; eexists;
      (split; [reflexivity|]); (split; [reflexivity|]);
      vm_compute; discriminate.
Defined.

(** In a document whose headings come in the order of the anchor list
    (top offsets that do not decrease along the list), the anchor
    [onScroll] makes active cuts the list in two: unless it is the first
    anchor, it and every anchor before it are past the threshold, and no
    anchor after it is. *)
Theorem onScroll_cuts_ordered_document
    (ROUTES : list route) (cleanAnchor : string -> string) (w : world)
    (r : route) (first : string) (rest : list string) :
  array_get ROUTES (getPathIndex ROUTES (this w)) = Some r ->
  anchors r = Some (first :: rest) ->
  (forall a, In a (first :: rest) ->
     element_of cleanAnchor (elements w) a <> None) ->
  (forall i j ai aj ei ej,
     (i <= j)%nat ->
     nth_error (first :: rest) i = Some ai ->
     nth_error (first :: rest) j = Some aj ->
     element_of cleanAnchor (elements w) ai = Some ei ->
     element_of cleanAnchor (elements w) aj = Some ej ->
     (top ei <= top ej)%Q) ->
  exists before a after,
    first :: rest = before ++ a :: after /\
    activeAnchor (state (this (snd (onScroll ROUTES cleanAnchor w))))
      = JStr a /\
    Forall (fun b => ~ scrolled_past cleanAnchor (elements w) b) after /\
    (before = []
     \/ Forall (scrolled_past cleanAnchor (elements w)) (before ++ [a])).
Proof.
  intros Hr Harr Hall Hsorted.
  destruct (scan_split cleanAnchor (elements w) first rest Hall)
    as [before [a [after [Hcut [Hscan [Hafter Hpast]]]]]].
  exists before, a, after.
  split; [exact Hcut|].
  split; [rewrite onScroll_unfold, Hr, Harr, Hscan; reflexivity|].
  split; [exact Hafter|].
  destruct Hpast as [->|Hpast]; [now left|]. right.
  apply Forall_forall. intros b Hb.
  apply in_app_or in Hb. destruct Hb as [Hb|[<-|[]]]; [|exact Hpast].
  apply In_nth_error in Hb. destruct Hb as [i Hi].
  assert (Hlt : (i < length before)%nat)
    by (apply nth_error_Some; congruence).
  assert (Hbi : nth_error (first :: rest) i = Some b).
  { rewrite Hcut, nth_error_app1 by exact Hlt. exact Hi. }
  assert (Haj : nth_error (first :: rest) (length before) = Some a).
  { rewrite Hcut, nth_error_app2, Nat.sub_diag by lia. reflexivity. }
  destruct (element_of cleanAnchor (elements w) b) as [eb|] eqn:Heb.
  2:{ exfalso. apply (Hall b); [|exact Heb]. now apply nth_error_In in Hbi. }
  destruct Hpast as [ea [Hea Hlow]].
  exists eb. split; [exact Heb|]. unfold Qminus in *.
  apply Qle_lt_trans with (top ea + - 26)%Q; [|exact Hlow].
  apply Qplus_le_compat; [|apply Qle_refl].
  apply (Hsorted i (length before) b a eb ea); auto. lia.
Qed.

Lemma onScroll_cuts_ordered_document_witness :
  exists before a after,
    ["A"; "B"; "C"] = before ++ a :: after /\
    activeAnchor
      (state (this (snd (onScroll example_ROUTES cleanAnchor
                           (example_page A_B_passed))))) = JStr a /\
    Forall (fun b => ~ scrolled_past cleanAnchor
                         (elements (example_page A_B_passed)) b) after /\
    (before = []
     \/ Forall (scrolled_past cleanAnchor
                  (elements (example_page A_B_passed))) (before ++ [a])).
Proof.
  apply (onScroll_cuts_ordered_document example_ROUTES cleanAnchor
           (example_page A_B_passed)
           (mkRoute "/react" "Use with React" (Some ["A"; "B"; "C"]))
           "A" ["B"; "C"]).
  - reflexivity.
  - reflexivity.
  - intros a [<-|[<-|[<-|[]]]]; vm_compute; discriminate.
  - intros i j ai aj ei ej Hij Hi Hj Hei Hej.
    destruct i as [|[|[|i]]]; simpl in Hi;
      try (destruct i; discriminate Hi);
      injection Hi as <-; vm_compute in Hei; injection Hei as <-;
      (destruct j as [|[|[|j]]]; simpl in Hj;
       try (destruct j; discriminate Hj); try lia;
       injection Hj as <-; vm_compute in Hej; injection Hej as <-;
       vm_compute; discriminate).
Defined.

(** ** The listener along a page view *)

Section Listener.

Variable ROUTES : list route.
Variable cleanAnchor : string -> string.

Lemma step_listeners_no_route (w : world) (e : event) :
  array_get ROUTES (getPathIndex ROUTES (this w)) = None ->
  scrollListeners w = [] ->
  scrollListeners (step ROUTES cleanAnchor w e) = [].
Proof.
  intros Hr Hw. destruct e as [els|els|].
  - rewrite step_Mount, componentDidMount_unfold.
    change (this (with_elements w els)) with (this w).
    rewrite Hr. exact Hw.
  - rewrite step_ScrollFrame, Hw. exact Hw.
  - apply step_Unmount_listeners.
Qed.

(** A scroll frame leaves the listeners as they are. *)
Lemma step_ScrollFrame_listeners (w : world) (els : list element) :
  scrollListeners (step ROUTES cleanAnchor w (ScrollFrame els))
  = scrollListeners w.
Proof.
  rewrite step_ScrollFrame.
  destruct (existsb _ (scrollListeners w)); [|reflexivity].
  rewrite onScroll_listeners. reflexivity.
Qed.

Lemma run_frames_listeners (es : list event) :
  forall w,
    forallb is_ScrollFrame es = true ->
    scrollListeners (run ROUTES cleanAnchor w es) = scrollListeners w
    /\ props (this (run ROUTES cleanAnchor w es)) = props (this w).
Proof.
  induction es as [|e es IH]; intros w Hes; [split; reflexivity|].
  simpl in Hes. apply andb_prop in Hes. destruct Hes as [He Hes].
  destruct e as [els|els|]; try discriminate He.
  simpl. destruct (IH (step ROUTES cleanAnchor w (ScrollFrame els)) Hes)
    as [-> ->].
  split; [apply step_ScrollFrame_listeners | apply step_props].
Qed.

Lemma step_at_most_one_listener (w : world) (e : event) :
  scrollListeners w = [] \/ scrollListeners w = [debouncedOnScroll] ->
  scrollListeners (step ROUTES cleanAnchor w e) = []
  \/ scrollListeners (step ROUTES cleanAnchor w e) = [debouncedOnScroll].
Proof.
  intros Hw. destruct e as [els|els|].
  - rewrite step_Mount, componentDidMount_unfold.
    destruct (array_get ROUTES _) as [r|]; [|exact Hw].
    destruct (anchors r); [|exact Hw].
    rewrite onScroll_listeners. right.
    unfold registered, with_elements, addEventListener, set_elements.
    cbn [snd scrollListeners].
    destruct Hw as [-> | ->]; reflexivity.
  - now rewrite step_ScrollFrame_listeners.
  - left. apply step_Unmount_listeners.
Qed.

End Listener.

(** On a path that matches no route the constructor stores [null] and
    [render] returns a page with no previous or next link and no route
    marked active, but [componentDidMount] throws; all along the page
    view no listener is registered, no element is queried and the active
    anchor stays [null]. *)
Theorem no_route_page_view
    (ROUTES : list route) (cleanAnchor : string -> string) (p : Props) :
  array_get ROUTES (getPathIndex ROUTES (new_Layout ROUTES p)) = None ->
  (forall els,
      fst (dispatch ROUTES cleanAnchor (Mount els) (page_view ROUTES p))
      = Throw_TypeError)
  /\ (exists tree,
        render ROUTES cleanAnchor (new_Layout ROUTES p) = Some tree
        /\ prev_slot tree = None /\ next_slot tree = None
        /\ active_routes (sidebar tree) = [])
  /\ (forall es,
        scrollListeners (run ROUTES cleanAnchor (page_view ROUTES p) es) = []
        /\ queries (run ROUTES cleanAnchor (page_view ROUTES p) es) = []
        /\ activeAnchor
             (state (this (run ROUTES cleanAnchor (page_view ROUTES p) es)))
           = JNull).
Proof.
  intros Hr. split; [|split].
  - intros els. unfold dispatch, bind, set_elements. cbn [fst snd].
    rewrite componentDidMount_unfold. cbn [this page_view].
    now rewrite Hr.
  - assert (Hidx : getPathIndex ROUTES (new_Layout ROUTES p) = (-1)%Z).
    { unfold array_get in Hr.
      unfold getPathIndex, findIndex in *.
      destruct (findIndex_from_range
                  (getPathIndex_callback (new_Layout ROUTES p)) ROUTES 0)
        as [H|H]; [exact H|].
      destruct (Z.ltb_spec
                  (findIndex_from
                     (getPathIndex_callback (new_Layout ROUTES p)) ROUTES 0)
                  0); [lia|].
      apply nth_error_None in Hr. lia. }
    unfold render.
    rewrite (render_PrevNextLinks_no_route ROUTES _ Hidx).
    destruct (Navigation_fragments ROUTES cleanAnchor
                (sidebarVisible (state (new_Layout ROUTES p)))
                (getPathIndex ROUTES (new_Layout ROUTES p))
                (activeAnchor (state (new_Layout ROUTES p))) [])
      as [frags [Hrender [_ Hfrags]]].
    { intros r' Hr'. congruence. }
    unfold render_Navigation. rewrite Hrender.
    eexists. split; [reflexivity|]. cbn [prev_slot next_slot sidebar].
    split; [reflexivity|]. split; [reflexivity|].
    unfold active_routes. cbn [list_children]. apply filter_none.
    intros g Hg. apply In_nth_error in Hg. destruct Hg as [j Hj].
    destruct (Hfrags j g Hj) as [r' [_ [_ [_ [-> _]]]]].
    rewrite Hidx. apply Z.eqb_neq. lia.
  - intros es.
    cut (props (this (run ROUTES cleanAnchor (page_view ROUTES p) es)) = p
         /\ scrollListeners
              (run ROUTES cleanAnchor (page_view ROUTES p) es) = []
         /\ queries (run ROUTES cleanAnchor (page_view ROUTES p) es) = []
         /\ activeAnchor
              (state (this (run ROUTES cleanAnchor (page_view ROUTES p) es)))
            = JNull); [tauto|].
    apply (run_invariant ROUTES cleanAnchor
             (fun w => props (this w) = p /\ scrollListeners w = []
                       /\ queries w = []
                       /\ activeAnchor (state (this w)) = JNull)).
    + intros w e [Hp [Hl [Hq Ha]]].
      pose proof (route_of_props ROUTES w p Hp) as Hroute.
      rewrite Hr in Hroute.
      split; [now rewrite step_props|]. split; [|split].
      * now apply step_listeners_no_route.
      * destruct (step_queries ROUTES cleanAnchor w e) as [->|[els ->]];
          [exact Hq|].
        unfold current_anchors. rewrite Hroute, Hq. reflexivity.
      * destruct (step_this ROUTES cleanAnchor w e)
          as [->|[r' [arr [els [v [Hr' _]]]]]]; [exact Ha|].
        congruence.
    + split; [reflexivity|]. split; [reflexivity|]. split; [reflexivity|].
      rewrite page_view_activeAnchor, Hr. reflexivity.
Qed.

Lemma no_route_page_view_witness :
  (forall els,
      fst (dispatch example_ROUTES cleanAnchor (Mount els)
             (page_view example_ROUTES (mkProps "/api")))
      = Throw_TypeError)
  /\ (exists tree,
        render example_ROUTES cleanAnchor
          (new_Layout example_ROUTES (mkProps "/api")) = Some tree
        /\ prev_slot tree = None /\ next_slot tree = None
        /\ active_routes (sidebar tree) = [])
  /\ (forall es,
        scrollListeners
          (run example_ROUTES cleanAnchor
             (page_view example_ROUTES (mkProps "/api")) es) = []
        /\ queries
             (run example_ROUTES cleanAnchor
                (page_view example_ROUTES (mkProps "/api")) es) = []
        /\ activeAnchor
             (state (this (run example_ROUTES cleanAnchor
                             (page_view example_ROUTES (mkProps "/api")) es)))
           = JNull).
Proof.
  apply (no_route_page_view example_ROUTES cleanAnchor (mkProps "/api")).
  reflexivity.
Defined.

(** However often the page is mounted, scrolled and unmounted, the
    document never holds more than one scroll listener of the
    component. *)
Theorem at_most_one_listener
    (ROUTES : list route) (cleanAnchor : string -> string) (p : Props)
    (es : list event) :
  scrollListeners (run ROUTES cleanAnchor (page_view ROUTES p) es) = []
  \/ scrollListeners (run ROUTES cleanAnchor (page_view ROUTES p) es)
     = [debouncedOnScroll].
Proof.
  apply (run_invariant ROUTES cleanAnchor
           (fun w => scrollListeners w = []
                     \/ scrollListeners w = [debouncedOnScroll])).
  - intros w e. apply step_at_most_one_listener.
  - now left.
Qed.

(** After a mount that returns, the last scroll frame decides: on a
    route that has an anchor list, when [componentDidMount] returns in the
    document the page is mounted in and the recomputation returns on a
    page just loaded in the document of the last frame, the active anchor
    after the mount, any scroll frames and that frame is the one it would
    set there, whatever the earlier frames were and whether their
    recomputations threw. *)
Theorem last_frame_decides
    (ROUTES : list route) (cleanAnchor : string -> string) (p : Props)
    (r : route) (arr : list string) (els0 els : list element)
    (frames : list event) :
  array_get ROUTES (getPathIndex ROUTES (new_Layout ROUTES p)) = Some r ->
  anchors r = Some arr ->
  fst (componentDidMount ROUTES cleanAnchor
         (mkWorld (new_Layout ROUTES p) els0 [] [])) = Return tt ->
  forallb is_ScrollFrame frames = true ->
  fst (onScroll ROUTES cleanAnchor (mkWorld (new_Layout ROUTES p) els [] []))
  = Return tt ->
  activeAnchor
    (state (this (run ROUTES cleanAnchor (page_view ROUTES p)
                    (Mount els0 :: frames ++ [ScrollFrame els]))))
  = activeAnchor
      (state (this (snd (onScroll ROUTES cleanAnchor
                           (mkWorld (new_Layout ROUTES p) els [] []))))).
Proof.
  intros Hr Harr _ Hframes Hreturns.
  change (Mount els0 :: frames ++ [ScrollFrame els])
    with ((Mount els0 :: frames) ++ [ScrollFrame els]).
  rewrite run_app. cbn [run fold_left].
  fold (run ROUTES cleanAnchor
          (step ROUTES cleanAnchor (page_view ROUTES p) (Mount els0)) frames).
  destruct (run_frames_listeners ROUTES cleanAnchor frames
              (step ROUTES cleanAnchor (page_view ROUTES p) (Mount els0))
              Hframes) as [Hl Hp].
  set (w := run ROUTES cleanAnchor
              (step ROUTES cleanAnchor (page_view ROUTES p) (Mount els0))
              frames) in *.
  rewrite step_props in Hp. cbn [page_view this new_Layout props] in Hp.
  rewrite (mount_with_list ROUTES cleanAnchor p els0 r arr Hr Harr),
    onScroll_listeners in Hl.
  cbn [scrollListeners] in Hl.
  rewrite step_ScrollFrame, Hl. cbn [existsb listener_eqb orb].
  rewrite (onScroll_unfold ROUTES cleanAnchor
             (mkWorld (new_Layout ROUTES p) els [] [])) in Hreturns |- *.
  rewrite (onScroll_unfold ROUTES cleanAnchor (with_elements w els)).
  change (this (with_elements w els)) with (this w).
  change (elements (with_elements w els)) with els.
  cbn [this elements] in Hreturns |- *.
  rewrite (route_of_props ROUTES w p Hp), Hr, Harr in *.
  destruct (scan cleanAnchor els arr (array_first arr));
    [reflexivity | discriminate Hreturns].
Qed.

Lemma last_frame_decides_witness :
  activeAnchor
    (state (this (run example_ROUTES cleanAnchor
                    (page_view example_ROUTES (mkProps "/react/"))
                    (Mount none_passed
                       :: [ScrollFrame B_missing; ScrollFrame none_passed]
                       ++ [ScrollFrame A_B_passed]))))
  = activeAnchor
      (state (this (snd (onScroll example_ROUTES cleanAnchor
                           (mkWorld
                              (new_Layout example_ROUTES (mkProps "/react/"))
                              A_B_passed [] []))))).
Proof.
  apply (last_frame_decides example_ROUTES cleanAnchor (mkProps "/react/")
           (mkRoute "/react" "Use with React" (Some ["A"; "B"; "C"]))
           ["A"; "B"; "C"] none_passed A_B_passed
           [ScrollFrame B_missing; ScrollFrame none_passed]).
  - reflexivity.
  - reflexivity.
  - reflexivity.
  - reflexivity.
  - reflexivity.
Defined.

(** ** The burger *)

Section Burger.

Variable ROUTES : list route.
Variable cleanAnchor : string -> string.

Lemma set_sidebar_same (w : world) :
  set_sidebar (sidebarVisible (state (this w))) w = w.
Proof. destruct w as [[ps [sv aa]] els ls qs]. reflexivity. Qed.

Lemma set_sidebar_twice (b b' : bool) (w : world) :
  set_sidebar b (set_sidebar b' w) = set_sidebar b w.
Proof. reflexivity. Qed.

Lemma onScroll_set_sidebar (b : bool) (w : world) :
  onScroll ROUTES cleanAnchor (set_sidebar b w) =
  (fst (onScroll ROUTES cleanAnchor w),
   set_sidebar b (snd (onScroll ROUTES cleanAnchor w))).
Proof.
  rewrite !onScroll_unfold.
  rewrite (getPathIndex_props ROUTES (this (set_sidebar b w)) (this w) eq_refl).
  cbn [set_sidebar elements].
  destruct (array_get ROUTES (getPathIndex ROUTES (this w))) as [r|];
    [|reflexivity].
  destruct (anchors r) as [arr|]; [|reflexivity].
  destruct (scan cleanAnchor (elements w) arr (array_first arr));
    reflexivity.
Qed.

Lemma step_set_sidebar (b : bool) (w : world) (e : event) :
  step ROUTES cleanAnchor (set_sidebar b w) e =
  set_sidebar b (step ROUTES cleanAnchor w e).
Proof.
  destruct e as [els|els|].
  - rewrite !step_Mount, !componentDidMount_unfold.
    rewrite (getPathIndex_props ROUTES
               (this (with_elements (set_sidebar b w) els))
               (this (with_elements w els)) eq_refl).
    destruct (array_get ROUTES
                (getPathIndex ROUTES (this (with_elements w els)))) as [r|];
      [|reflexivity].
    destruct (anchors r); [|reflexivity].
    change (registered (with_elements (set_sidebar b w) els))
      with (set_sidebar b (registered (with_elements w els))).
    now rewrite onScroll_set_sidebar.
  - rewrite !step_ScrollFrame. cbn [set_sidebar scrollListeners].
    destruct (existsb _ (scrollListeners w)); [|reflexivity].
    change (with_elements (set_sidebar b w) els)
      with (set_sidebar b (with_elements w els)).
    now rewrite onScroll_set_sidebar.
  - reflexivity.
Qed.

Lemma run_set_sidebar (b : bool) (es : list event) :
  forall w,
    run ROUTES cleanAnchor (set_sidebar b w) es =
    set_sidebar b (run ROUTES cleanAnchor w es).
Proof.
  induction es as [|e es IH]; intros w; simpl; [reflexivity|].
  fold (run ROUTES cleanAnchor
          (step ROUTES cleanAnchor (set_sidebar b w) e) es).
  fold (run ROUTES cleanAnchor (step ROUTES cleanAnchor w e) es).
  now rewrite step_set_sidebar, IH.
Qed.

Lemma step_sidebarVisible (w : world) (e : event) :
  sidebarVisible (state (this (step ROUTES cleanAnchor w e)))
  = sidebarVisible (state (this w)).
Proof.
  destruct (step_this ROUTES cleanAnchor w e)
    as [->|[r [arr [els [v [_ [_ [_ ->]]]]]]]]; reflexivity.
Qed.

Lemma ui_run_set_sidebar (es : list ui_event) :
  forall w,
    ui_run ROUTES cleanAnchor w es =
    set_sidebar
      (xorb (sidebarVisible (state (this w)))
            (Nat.odd (length (filter is_BurgerClick es))))
      (run ROUTES cleanAnchor w (lifecycle_of es)).
Proof.
  induction es as [|e es IH]; intros w.
  - simpl. rewrite xorb_false_r. symmetry. apply set_sidebar_same.
  - cbn [ui_run fold_left].
    fold (ui_run ROUTES cleanAnchor (ui_step ROUTES cleanAnchor w e) es).
    rewrite IH. destruct e as [e|].
    + cbn [ui_step is_BurgerClick filter lifecycle_of flat_map app run
             fold_left].
      now rewrite step_sidebarVisible.
    + cbn [ui_step is_BurgerClick filter lifecycle_of flat_map app length].
      change (snd (Burger_onClick w))
        with (set_sidebar (negb (sidebarVisible (state (this w)))) w).
      rewrite run_set_sidebar, set_sidebar_twice.
      cbn [set_sidebar this state sidebarVisible].
      rewrite Nat.odd_succ, <- Nat.negb_odd.
      f_equal.
      destruct (sidebarVisible (state (this w))),
               (Nat.odd (length (filter is_BurgerClick es)));
        reflexivity.
Qed.

End Burger.

(** Only the burger shows and hides the sidebar, and it does nothing
    else: after any mix of mounts, scroll frames, unmounts and clicks, the
    world is the one the mounts, scroll frames and unmounts alone lead to
    (same active anchor, listeners, queries), but for [sidebarVisible],
    which is [true] exactly when the number of clicks is odd. *)
Theorem burger_only_toggles_sidebar
    (ROUTES : list route) (cleanAnchor : string -> string) (p : Props)
    (es : list ui_event) :
  ui_run ROUTES cleanAnchor (page_view ROUTES p) es
  = set_sidebar (Nat.odd (length (filter is_BurgerClick es)))
      (run ROUTES cleanAnchor (page_view ROUTES p) (lifecycle_of es))
  /\ sidebarVisible
       (state (this (ui_run ROUTES cleanAnchor (page_view ROUTES p) es)))
     = Nat.odd (length (filter is_BurgerClick es)).
Proof.
  rewrite ui_run_set_sidebar. split; reflexivity.
Qed.

Lemma render_throws_iff_witness :
  render example_ROUTES cleanAnchor
    (new_Layout example_ROUTES (mkProps "/getting-started")) = None.
Proof.
  apply (proj1 (render_throws_iff example_ROUTES cleanAnchor
                  (new_Layout example_ROUTES (mkProps "/getting-started")))).
  exists (mkRoute "/getting-started" "Getting Started" None).
  split; reflexivity.
Defined.

(** ** Mounting and unmounting *)

Lemma componentWillUnmount_listeners (w : world) :
  scrollListeners (snd (componentWillUnmount w)) = [].
Proof.
  unfold componentWillUnmount, removeEventListener. cbn [snd scrollListeners].
  induction (scrollListeners w) as [|[] ls IH]; simpl; auto.
Qed.

(** C8. On a route that has an anchor list, in a document that holds the
    element of every anchor, [componentDidMount] on the page just
    constructed returns; it leaves exactly one scroll listener registered
    and has run one recomputation: every anchor was looked up and measured
    once, in order, and the active anchor is the last anchor past the
    threshold, or [anchors[0]] when no anchor is past it.  Whatever the
    world, [componentWillUnmount] returns, leaves the listener
    unregistered and the component as it was; after the mount it leaves no
    listener at all. *)
Theorem mount_registers_unmount_removes
    (ROUTES : list route) (cleanAnchor : string -> string) (p : Props)
    (els : list element) (r : route) (arr : list string) :
  array_get ROUTES (getPathIndex ROUTES (new_Layout ROUTES p)) = Some r ->
  anchors r = Some arr ->
  (forall a, In a arr -> element_of cleanAnchor els a <> None) ->
  (exists w',
      componentDidMount ROUTES cleanAnchor
        (mkWorld (new_Layout ROUTES p) els [] []) = (Return tt, w')
      /\ scrollListeners w' = [debouncedOnScroll]
      /\ queries w' = flat_map (anchor_queries cleanAnchor) arr
      /\ ((exists before a after,
             arr = before ++ a :: after /\
             activeAnchor (state (this w')) = JStr a /\
             scrolled_past cleanAnchor els a /\
             Forall (fun b => ~ scrolled_past cleanAnchor els b) after)
          \/ (Forall (fun b => ~ scrolled_past cleanAnchor els b) arr /\
              activeAnchor (state (this w')) = array_first arr))
      /\ scrollListeners (snd (componentWillUnmount w')) = [])
  /\ (forall w,
        fst (componentWillUnmount w) = Return tt
        /\ ~ In debouncedOnScroll
               (scrollListeners (snd (componentWillUnmount w)))
        /\ this (snd (componentWillUnmount w)) = this w).
Proof.
  intros Hr Harr Hpresent. split.
  - rewrite componentDidMount_unfold. cbn [this].
    rewrite Hr, Harr, onScroll_unfold.
    change (this (registered (mkWorld (new_Layout ROUTES p) els [] [])))
      with (new_Layout ROUTES p).
    change (elements (registered (mkWorld (new_Layout ROUTES p) els [] [])))
      with els.
    rewrite Hr, Harr.
    destruct (scan_all_present cleanAnchor els arr (array_first arr)
                Hpresent) as [v [Hscan Hcases]].
    rewrite Hscan. eexists. split; [reflexivity|].
    split; [reflexivity|].
    split.
    { cbn [queries registered snd addEventListener app].
      apply scan_queries_present. exact Hpresent. }
    split; [|apply componentWillUnmount_listeners].
    cbn [this state activeAnchor].
    destruct Hcases as [[before [a [after [Hcut [-> [Ha Hafter]]]]]]
                       | [-> Hnone]].
    + left. exists before, a, after. auto.
    + right. auto.
  - intros w. split; [reflexivity|]. split; [|reflexivity].
    rewrite componentWillUnmount_listeners. intros [].
Qed.

Lemma mount_registers_unmount_removes_witness :
  (exists w',
      componentDidMount example_ROUTES cleanAnchor
        (mkWorld (new_Layout example_ROUTES (mkProps "/react/"))
           A_B_passed [] []) = (Return tt, w')
      /\ scrollListeners w' = [debouncedOnScroll]
      /\ queries w' = flat_map (anchor_queries cleanAnchor) ["A"; "B"; "C"]
      /\ ((exists before a after,
             ["A"; "B"; "C"] = before ++ a :: after /\
             activeAnchor (state (this w')) = JStr a /\
             scrolled_past cleanAnchor A_B_passed a /\
             Forall (fun b => ~ scrolled_past cleanAnchor A_B_passed b) after)
          \/ (Forall (fun b => ~ scrolled_past cleanAnchor A_B_passed b)
                ["A"; "B"; "C"] /\
              activeAnchor (state (this w')) = array_first ["A"; "B"; "C"]))
      /\ scrollListeners (snd (componentWillUnmount w')) = [])
  /\ (forall w,
        fst (componentWillUnmount w) = Return tt
        /\ ~ In debouncedOnScroll
               (scrollListeners (snd (componentWillUnmount w)))
        /\ this (snd (componentWillUnmount w)) = this w).
Proof.
  apply (mount_registers_unmount_removes example_ROUTES cleanAnchor
           (mkProps "/react/") A_B_passed
           (mkRoute "/react" "Use with React" (Some ["A"; "B"; "C"]))
           ["A"; "B"; "C"]).
  - reflexivity.
  - reflexivity.
  - intros a [<-|[<-|[<-|[]]]]; vm_compute; discriminate.
Defined.

(** The mount of the example page with [A] and [B] past the threshold:
    the active anchor the constructor stored, [A], becomes [B]. *)
Example mount_A_B_passed :
  activeAnchor (state (new_Layout example_ROUTES (mkProps "/react/")))
  = JStr "A"
  /\ activeAnchor
       (state (this (snd (componentDidMount example_ROUTES cleanAnchor
                            (mkWorld
                               (new_Layout example_ROUTES (mkProps "/react/"))
                               A_B_passed [] []))))) = JStr "B".
Proof. vm_compute. split; reflexivity. Qed.


(** The example page mounted with no heading past the threshold, then
    unmounted: a recomputation that still runs, in a document where [A]
    and [B] are past it, moves the active anchor from [A] to [B]. *)
Example onScroll_after_unmount_example :
  activeAnchor
    (state (this (snd (onScroll example_ROUTES cleanAnchor
      (with_elements
         (snd (componentWillUnmount
                 (snd (componentDidMount example_ROUTES cleanAnchor
                         (example_page none_passed)))))
         A_B_passed))))) = JStr "B".
Proof. vm_compute. reflexivity. Qed.
